(** * Stock forecasting app: a shallow embedding of [app.py]

    The application downloads a price history, fits a Prophet model,
    forecasts a fixed number of days and scores the in-sample fit with
    MAE, MSE and RMSE.  The functions of [app.py] are embedded below
    under their own names.  The three libraries the file calls into are
    represented as follows:

    - [yf.download] is an input of the development (a section variable);
    - Prophet's numerical fit and its predictors are inputs as well, while
      the checks of [Prophet.fit] (too few priced rows, an infinite price,
      a time scale of zero) and the date handling of [Prophet.fit],
      [make_future_dataframe] and [predict] follow the library (unique and
      sorted history dates, one daily date per requested period, one output
      row per date, bounds sampled for the frame as a whole);
    - scikit-learn's [mean_absolute_error] and [mean_squared_error] are
      written out, with their input validation and with NumPy's pairwise
      summation.

    Prices are values of a numeric interface with two instances: the real
    numbers (exact arithmetic) and IEEE binary64, the type NumPy computes
    in.  Properties of the binary64 results are proved on the
    specification of the operations in [SpecFloat]. *)

From Stdlib Require Import Reals Floats Lra.
From stdpp Require Import gmap strings list sorting.

(** ** Python exceptions as an error monad *)

Inductive exn : Type :=
| KeyError        (* a dict lookup on a missing key *)
| ValueError      (* raised by Prophet.fit and by scikit-learn's validation *)
| RuntimeError    (* raised by Prophet.fit when the optimisation fails *)
| NotFitted.      (* Prophet's Exception('Model has not been fit.') *)

Inductive result (T : Type) : Type :=
| Ok (v : T)
| Raise (e : exn).
Arguments Ok {T} v.
Arguments Raise {T} e.

#[global] Instance result_ret : MRet result := @Ok.
#[global] Instance result_bind : MBind result := λ _ _ k c,
  match c with
  | Ok v => k v
  | Raise e => Raise e
  end.

#[global] Instance exn_eq_dec : EqDecision exn.
Proof. solve_decision. Defined.

(** ** The numeric interface *)

Class Numeric (A : Type) : Type := {
  nzero : A;
  nadd : A → A → A;
  nsub : A → A → A;
  nmul : A → A → A;
  ndiv : A → A → A;
  nabs : A → A;
  nsqrt : A → A;
  of_count : nat → A;
  isnan : A → bool;
  isinf : A → bool;
  neqb : A → A → bool
}.

(** Exact arithmetic: no NaN, no infinity. *)
#[global] Instance R_numeric : Numeric R := {|
  nzero := 0%R;
  nadd := Rplus;
  nsub := Rminus;
  nmul := Rmult;
  ndiv := Rdiv;
  nabs := Rabs;
  nsqrt := R_sqrt.sqrt;
  of_count := INR;
  isnan := λ _, false;
  isinf := λ _, false;
  neqb := λ x y, if Req_dec_T x y then true else false
|}.

(** IEEE binary64, NumPy's float64. *)
#[global] Instance float_numeric : Numeric float := {|
  nzero := 0%float;
  nadd := PrimFloat.add;
  nsub := PrimFloat.sub;
  nmul := PrimFloat.mul;
  ndiv := PrimFloat.div;
  nabs := PrimFloat.abs;
  nsqrt := PrimFloat.sqrt;
  of_count := λ n, PrimFloat.of_uint63 (Uint63.of_Z (Z.of_nat n));
  isnan := PrimFloat.is_nan;
  isinf := PrimFloat.is_infinity;
  neqb := PrimFloat.eqb
|}.

Definition isfinite `{Numeric A} (x : A) : bool := negb (isnan x || isinf x).

(** ** Data frames *)

(** A row of the table [yf.download] returns, indexed by [Date]
    (a day number). *)
Record quote (A : Type) : Type := {
  Date : Z;
  Open : A;
  High : A;
  Low : A;
  Close : A;
  AdjClose : A;
  Volume : A
}.
Arguments Date {A} _.
Arguments Open {A} _.
Arguments High {A} _.
Arguments Low {A} _.
Arguments Close {A} _.
Arguments AdjClose {A} _.
Arguments Volume {A} _.

(** A row of the frame handed to Prophet: columns [ds] and [y]. *)
Record obs (A : Type) : Type := { ds : Z; y : A }.
Arguments ds {A} _.
Arguments y {A} _.

(** A row of the forecast frame, with the four columns the app shows. *)
Record fc (A : Type) : Type := {
  f_ds : Z;
  yhat : A;
  yhat_lower : A;
  yhat_upper : A
}.
Arguments f_ds {A} _.
Arguments yhat {A} _.
Arguments yhat_lower {A} _.
Arguments yhat_upper {A} _.

(** The dictionary [calculate_performance_metrics] returns. *)
Record metrics (A : Type) : Type := { MAE : A; MSE : A; RMSE : A }.
Arguments MAE {A} _.
Arguments MSE {A} _.
Arguments RMSE {A} _.

(** ** pandas helpers *)

(** [Series.unique]: the distinct values in order of first appearance. *)
Fixpoint unique (l : list Z) : list Z :=
  match l with
  | [] => []
  | x :: l' => x :: filter (λ z, z ≠ x) (unique l')
  end.

(** [Series.sort_values]. *)
Definition sort_values (l : list Z) : list Z := merge_sort Z.le l.

(** [Series.max] on a date column; [None] stands for [NaT]. *)
Definition date_max (l : list Z) : option Z :=
  match l with
  | [] => None
  | x :: l' => Some (foldl Z.max x l')
  end.

(** [Series.min] on a date column. *)
Definition date_min (l : list Z) : option Z :=
  match l with
  | [] => None
  | x :: l' => Some (foldl Z.min x l')
  end.

(** The span [ds.max() - ds.min()] by which Prophet scales time. *)
Definition t_scale (l : list Z) : Z :=
  (default 0 (date_max l) - default 0 (date_min l))%Z.

(** [pd.date_range(start, periods=n, freq='D')]. *)
Definition date_range (start : Z) (n : nat) : list Z :=
  (λ i : nat, (start + Z.of_nat i)%Z) <$> seq 0 n.

(** The [periods] calendar days that follow [last_date]. *)
Definition horizon_dates (last_date : Z) (periods : nat) : list Z :=
  (λ i : nat, (last_date + Z.of_nat i)%Z) <$> seq 1 periods.

(** ** scikit-learn's regression metrics *)

Section Metrics.
Context {A : Type} `{Numeric A}.

(** NumPy's pairwise summation of a contiguous array.  Fewer than 8
    elements are added from left to right.  Up to 128 elements are added
    into 8 accumulators, block of 8 by block of 8; the accumulators are
    combined as a balanced tree and the last [n mod 8] elements are added
    to the result.  Longer arrays are split in two, the first part a
    multiple of 8, and the sums of the two parts are added. *)
Fixpoint blocks_sum (k : nat) (r a : list A) : list A * list A :=
  match k with
  | 0 => (r, a)
  | S k' => blocks_sum k' (zip_with nadd r (take 8 a)) (drop 8 a)
  end.

Definition tree8 (r : list A) : A :=
  match r with
  | [r0; r1; r2; r3; r4; r5; r6; r7] =>
      nadd (nadd (nadd r0 r1) (nadd r2 r3)) (nadd (nadd r4 r5) (nadd r6 r7))
  | _ => foldl nadd nzero r
  end.

Fixpoint pairwise_sum (fuel : nat) (a : list A) : A :=
  let n := length a in
  if n <? 8 then foldl nadd nzero a
  else if n <=? 128 then
    let '(r, rest) := blocks_sum (n / 8 - 1) (take 8 a) (drop 8 a) in
    foldl nadd (tree8 r) rest
  else
    match fuel with
    | 0 => foldl nadd nzero a
    | S fuel' =>
        let n2 := n / 2 - (n / 2) mod 8 in
        nadd (pairwise_sum fuel' (take n2 a)) (pairwise_sum fuel' (drop n2 a))
    end.

(** [np.add.reduce]: the pairwise sum added to the identity.  The
    length of the array is fuel enough, see [pairwise_sum_fuel]. *)
Definition np_sum (a : list A) : A :=
  nadd nzero (pairwise_sum (length a) a).

(** [np.average] without weights: the sum divided by the count. *)
Definition average (l : list A) : A :=
  ndiv (np_sum l) (of_count (length l)).

(** [_check_reg_targets]: equal lengths, only finite values, at least
    one sample; each violation is a [ValueError]. *)
Definition check_reg_targets (y_true y_pred : list A)
  : result (list A * list A) :=
  if negb (length y_true =? length y_pred) then Raise ValueError
  else if negb (forallb isfinite y_true && forallb isfinite y_pred)
  then Raise ValueError
  else if length y_true =? 0 then Raise ValueError
  else Ok (y_true, y_pred).

(** [np.average(np.abs(y_pred - y_true))]. *)
Definition mean_absolute_error (y_true y_pred : list A) : result A :=
  '(t, p) ← check_reg_targets y_true y_pred;
  Ok (average (zip_with (λ ti pi, nabs (nsub pi ti)) t p)).

(** [np.average((y_true - y_pred) ** 2)]. *)
Definition mean_squared_error (y_true y_pred : list A) : result A :=
  '(t, p) ← check_reg_targets y_true y_pred;
  Ok (average (zip_with (λ ti pi, let d := nsub ti pi in nmul d d) t p)).

(** app.py, lines 33-37. *)
Definition calculate_performance_metrics (actual predicted : list A)
  : result (metrics A) :=
  mae ← mean_absolute_error actual predicted;
  mse ← mean_squared_error actual predicted;
  let rmse := nsqrt mse in
  Ok {| MAE := mae; MSE := mse; RMSE := rmse |}.

(** app.py, lines 114-116: the actual prices against the first
    [len(df)] predictions, paired by position. *)
Definition evaluate (df : list (obs A)) (forecast : list (fc A))
  : result (metrics A) :=
  let actual := y <$> df in
  let predicted := take (length df) (yhat <$> forecast) in
  calculate_performance_metrics actual predicted.

(** The rows behind the values [evaluate] compares: the i-th row of
    [df] with the i-th of the first [len(df)] forecast rows. *)
Definition scored_pairs (df : list (obs A)) (forecast : list (fc A))
  : list (obs A * fc A) :=
  zip df (take (length df) forecast).
End Metrics.

(** ** The forecast horizon (app.py, lines 68-76) *)

Definition horizon_options : list string :=
  ["1 year"; "2 years"; "3 years"; "5 years"].

Definition horizon_mapping : gmap string nat :=
  {[ "1 year" := 365; "2 years" := 730; "3 years" := 1095;
     "5 years" := 1825 ]}.

(** [horizon_mapping[forecast_horizon]]; a missing key raises. *)
Definition forecast_days (forecast_horizon : string) : result nat :=
  match horizon_mapping !! forecast_horizon with
  | Some days => Ok days
  | None => Raise KeyError
  end.

(** ** The pipeline *)

Section Pipeline.
Context {A : Type} `{Numeric A}.

(** [yf.download(ticker, start, end)]. *)
Variable yf_download : string → Z → Z → list (quote A).

(** Prophet's numerical part: the fitted parameters, the point
    estimate computed from them, and the interval bounds.  Prophet obtains
    the bounds by sampling, with random arrays drawn for the whole frame:
    the bounds of a row depend on the state of the random number generator,
    on the dates of the frame and on the position of the row in it. *)
Context {Params RandomState : Type}.
Variable stan_fit : list (obs A) → Params.
Variable predict_yhat : Params → Z → A.
Variable predict_uncertainty :
  Params → RandomState → list Z → nat → A * A.
Variable advance : RandomState → RandomState.

(** The fitted model: the dates of the training frame and the
    parameters.  An empty [history_dates] is the model before [fit]. *)
Record Prophet : Type := {
  history_dates : list Z;
  params : Params
}.

(** app.py, lines 11-15: select the column, turn the index into a
    column, rename. *)
Definition fetch_stock_data (ticker_symbol : string) (start_date end_date : Z)
  : list (obs A) :=
  let stock_data := yf_download ticker_symbol start_date end_date in
  (λ q, {| ds := Date q; y := AdjClose q |}) <$> stock_data.

(** [y.min() == y.max()] on a column without NaN: all prices equal. *)
Definition constant (l : list A) : bool :=
  match l with
  | [] => true
  | x :: l' => forallb (neqb x) l'
  end.

(** app.py, lines 19-22.  [Prophet.fit] keeps the rows whose [y] is
    not NaN, refuses fewer than two of them and infinite values, and
    records the unique, sorted dates of the whole frame.  Time is scaled by
    the span of the dates of the kept rows: when they all share one date
    the scaled times are NaN and the optimisation fails with a
    [RuntimeError], unless all prices are equal, in which case Prophet has
    nothing to fit and does not call the optimiser. *)
Definition train_prophet_model (df : list (obs A)) : result Prophet :=
  let history := filter (λ r, negb (isnan (y r))) df in
  if length history <? 2 then Raise ValueError
  else if existsb (λ r, isinf (y r)) history then Raise ValueError
  else if (t_scale (ds <$> history) =? 0)%Z && negb (constant (y <$> history))
  then Raise RuntimeError
  else Ok {| history_dates := sort_values (unique (ds <$> df));
             params := stan_fit history |}.

(** [Prophet.make_future_dataframe(periods)] with daily frequency and
    the history included. *)
Definition make_future_dataframe (model : Prophet) (periods : nat)
  : result (list Z) :=
  match date_max (history_dates model) with
  | None => Raise NotFitted
  | Some last_date =>
      let dates := date_range last_date (periods + 1) in
      let dates := filter (λ d, (last_date < d)%Z) dates in
      let dates := take periods dates in
      Ok (history_dates model ++ dates)
  end.

(** [Prophet.predict]: the frame is sorted by date and every row gets a
    point estimate and two bounds. *)
Definition predict (model : Prophet) (future : list Z) (rng : RandomState)
  : list (fc A) * RandomState :=
  let df := sort_values future in
  (imap (λ i d, let bounds := predict_uncertainty (params model) rng df i in
                {| f_ds := d;
                   yhat := predict_yhat (params model) d;
                   yhat_lower := fst bounds;
                   yhat_upper := snd bounds |}) df,
   advance rng).

(** app.py, lines 26-29. *)
Definition make_forecast (model : Prophet) (periods : nat) (rng : RandomState)
  : result (list (fc A) * RandomState) :=
  future ← make_future_dataframe model periods;
  let forecast := predict model future rng in
  Ok forecast.

(** app.py, lines 79-131, without the rendering: the block under the
    button. *)
Definition forecast_on_button (ticker_symbol : string) (start_date end_date : Z)
    (forecast_days : nat) (rng : RandomState)
  : result (list (fc A) * metrics A) :=
  let df := fetch_stock_data ticker_symbol start_date end_date in
  model ← train_prophet_model df;
  '(forecast, _) ← make_forecast model forecast_days rng;
  metrics ← evaluate df forecast;
  Ok (forecast, metrics).

(** app.py, lines 41-131: what a run computes from the sidebar inputs.
    The horizon is looked up on every run; nothing else is computed
    unless the button is pressed. *)
Definition main (ticker_symbol : string) (start_date end_date : Z)
    (forecast_horizon : string) (button : bool) (rng : RandomState)
  : result (option (list (fc A) * metrics A)) :=
  forecast_days ← forecast_days forecast_horizon;
  if button then
    shown ← forecast_on_button ticker_symbol start_date end_date
               forecast_days rng;
    Ok (Some shown)
  else Ok None.
End Pipeline.

Arguments history_dates {Params} _.
Arguments params {Params} _.

(** ** What the specification asks of a forecast and of the scoring *)

(** The forecast has a row for every date of [df], its dates after the
    last observed one are exactly the [horizon_days] days that follow it,
    every other date is a date of [df], and the dates ascend strictly. *)
Definition covers_history_and_horizon {A : Type}
    (df : list (obs A)) (horizon_days : nat) (forecast : list (fc A)) : Prop :=
  ∃ last_date,
    date_max (ds <$> df) = Some last_date ∧
    (∀ r, r ∈ df → ds r ∈ f_ds <$> forecast) ∧
    filter (λ d, (last_date < d)%Z) (f_ds <$> forecast)
      = horizon_dates last_date horizon_days ∧
    (∀ d, d ∈ f_ds <$> forecast → (d ≤ last_date)%Z → d ∈ ds <$> df) ∧
    StronglySorted Z.lt (f_ds <$> forecast).

(** Every scored pair joins an actual and a predicted row of the same
    date. *)
Definition timestamps_match {A : Type}
    (pairs : list (obs A * fc A)) : Prop :=
  ∀ a p, (a, p) ∈ pairs → ds a = f_ds p.

(** The horizons the specification lists. *)
Definition listed_horizons : list nat := [365; 730; 1095; 1825].

(** The metrics as the specification words them, over the reals: means
    over a set of matched (actual, predicted) pairs. *)
Definition Rsum (l : list R) : R := foldr Rplus 0%R l.

Definition Rmean (l : list R) : R := (Rsum l / INR (length l))%R.

Definition Rsq (x : R) : R := (x * x)%R.

Definition mean_abs_diff (pairs : list (R * R)) : R :=
  Rmean ((λ ap, Rabs (ap.1 - ap.2)) <$> pairs).

Definition mean_sq_diff (pairs : list (R * R)) : R :=
  Rmean ((λ ap, ((ap.1 - ap.2) * (ap.1 - ap.2))%R) <$> pairs).

(** The frames [evaluate] accepts: at least one actual row, at least as
    many forecast rows, and only finite values among those compared. *)
Definition scorable {A : Type} `{Numeric A}
    (df : list (obs A)) (forecast : list (fc A)) : Prop :=
  df ≠ [] ∧ length df ≤ length forecast ∧
  Forall (λ r, isfinite (y r) = true) df ∧
  Forall (λ p, isfinite (yhat p) = true) (take (length df) forecast).

(** ** Classes of binary64 values

    Read on the specification [Prim2SF x] of a binary64 value [x]:
    zero, finite or plus infinity with a plus sign ([sf_nonneg], either
    zero counts); of a given sign and not NaN ([sf_signed]); zero or finite
    ([sf_finite]); not NaN ([sf_number]); finite and above zero
    ([sf_positive]). *)

Definition sf_nonneg (s : spec_float) : Prop :=
  match s with
  | S754_zero _ | S754_infinity false | S754_finite false _ _ => True
  | _ => False
  end.

Definition sf_signed (sx : bool) (s : spec_float) : Prop :=
  match s with
  | S754_zero s' | S754_infinity s' | S754_finite s' _ _ => s' = sx
  | S754_nan => False
  end.

Definition sf_finite (s : spec_float) : Prop :=
  match s with
  | S754_zero _ | S754_finite _ _ _ => True
  | _ => False
  end.

Definition sf_number (s : spec_float) : Prop :=
  match s with
  | S754_nan => False
  | _ => True
  end.

Definition sf_positive (s : spec_float) : Prop :=
  match s with
  | S754_finite false _ _ => True
  | _ => False
  end.

(** Plus zero, the value of [x - x] for a finite [x]. *)
Definition plus_zero (x : float) : Prop := Prim2SF x = S754_zero false.



(** ** Concrete inputs

    A stand-in for the fitted model over binary64 (the last price as the
    point estimate, bounds that move with the random state), and a few
    downloaded tables.  The lemmas that evaluate the pipeline on explicit
    inputs use them. *)

Module Sample.
Definition naive_fit (history : list (obs float)) : float :=
  default 0%float (last (y <$> history)).

Definition naive_yhat (p : float) (d : Z) : float := p.

Definition naive_uncertainty (p : float) (rng : nat) (frame : list Z) (i : nat)
  : float * float :=
  (PrimFloat.sub p (of_count (S rng)), PrimFloat.add p (of_count (S rng))).

Definition naive_advance (rng : nat) : nat := S rng.

Definition row (d : Z) (price : float) : quote float :=
  {| Date := d; Open := price; High := price; Low := price;
     Close := price; AdjClose := price; Volume := 1000%float |}.

Definition download (rows : list (quote float))
  : string → Z → Z → list (quote float) :=
  λ _ _ _, rows.

Definition one_row : list (quote float) := [row 1 100%float].

Definition ascending_rows : list (quote float) :=
  [row 1 10%float; row 2 11%float; row 5 12%float].

Definition duplicate_rows : list (quote float) :=
  [row 1 10%float; row 1 11%float; row 2 12%float].

Definition messy_rows : list (quote float) :=
  [row 2 10%float; row 1 PrimFloat.nan; row 2 12%float].

Definition fetch (rows : list (quote float)) : list (obs float) :=
  fetch_stock_data (download rows) "RACE" 0 10.

Definition train (df : list (obs float)) : result (@Prophet float) :=
  train_prophet_model naive_fit df.

Definition forecast (model : @Prophet float) (periods rng : nat)
  : result (list (fc float) * nat) :=
  make_forecast naive_yhat naive_uncertainty naive_advance model periods rng.

Definition run (rows : list (quote float)) (forecast_horizon : string)
    (button : bool) (rng : nat)
  : result (option (list (fc float) * metrics float)) :=
  main (download rows) naive_fit naive_yhat naive_uncertainty naive_advance
       "RACE" 0 10 forecast_horizon button rng.

(** The model fitted on [ascending_rows] and its forecast of three days. *)
Definition ascending_model : @Prophet float :=
  {| history_dates := [1; 2; 5]%Z; params := 12%float |}.

Definition forecast_rows (rows : list (quote float)) (periods rng : nat)
  : list (fc float) :=
  match train (fetch rows) with
  | Ok model =>
      match forecast model periods rng with
      | Ok (rows, _) => rows
      | Raise _ => []
      end
  | Raise _ => []
  end.

Definition ascending_forecast : list (fc float) :=
  Eval vm_compute in forecast_rows ascending_rows 3 0.

(** One actual row on day 1 and one forecast row on day 2. *)
Definition actual_day1 : list (obs float) := [{| ds := 1; y := 10%float |}].

Definition forecast_day2 : list (fc float) :=
  [{| f_ds := 2; yhat := 12%float;
      yhat_lower := 11%float; yhat_upper := 13%float |}].

(** Three values of 0.1, as binary64 has it. *)
Definition tenths : list float :=
  [0x1.999999999999ap-4; 0x1.999999999999ap-4; 0x1.999999999999ap-4]%float.
End Sample.

(** * Properties *)

(** ** Dates: [unique], [sort_values], [date_max], [date_range] *)

Section Dates.
Implicit Types l : list Z.

Lemma elem_of_unique l x : x ∈ unique l ↔ x ∈ l.
Proof.
  induction l as [|a l IH]; simpl; [done|].
  rewrite !elem_of_cons, list_elem_of_filter, IH.
  destruct (decide (x = a)); tauto.
Qed.

Lemma NoDup_unique l : NoDup (unique l).
Proof.
  induction l as [|a l IH]; simpl; [constructor|].
  apply NoDup_cons. split.
  - rewrite list_elem_of_filter. tauto.
  - by apply NoDup_filter.
Qed.

Lemma filter_above_id a l :
  Forall (Z.lt a) l → filter (λ z, z ≠ a) l = l.
Proof.
  induction 1 as [|x l Hx _ IH]; [done|].
  rewrite filter_cons_True by lia. by rewrite IH.
Qed.

Lemma unique_ascending l : StronglySorted Z.lt l → unique l = l.
Proof.
  induction 1 as [|a l _ IH Ha]; simpl; [done|].
  by rewrite IH, filter_above_id.
Qed.

Lemma StronglySorted_lt_le l : StronglySorted Z.lt l → StronglySorted Z.le l.
Proof.
  induction 1 as [|a l _ IH Ha]; constructor; [done|].
  eapply Forall_impl; [exact Ha|]. intros; simpl in *; lia.
Qed.

Lemma StronglySorted_le_NoDup l :
  StronglySorted Z.le l → NoDup l → StronglySorted Z.lt l.
Proof.
  induction 1 as [|a l _ IH Ha]; intros Hnd; constructor.
  - apply IH. by apply NoDup_cons in Hnd as [_ ?].
  - apply NoDup_cons in Hnd as [Hnotin _].
    rewrite Forall_forall in Ha |- *. intros x Hx.
    specialize (Ha x Hx). assert (x ≠ a) by (intros ->; done). lia.
Qed.

Lemma sort_values_sorted l : StronglySorted Z.le l → sort_values l = l.
Proof.
  intros Hl. unfold sort_values.
  apply (StronglySorted_unique Z.le); [| done |].
  - apply StronglySorted_merge_sort; apply _.
  - apply merge_sort_Permutation.
Qed.

Lemma elem_of_sort_values l x : x ∈ sort_values l ↔ x ∈ l.
Proof. unfold sort_values. by rewrite merge_sort_Permutation. Qed.

(** The dates Prophet records are strictly ascending. *)
Lemma history_dates_ascending l :
  StronglySorted Z.lt (sort_values (unique l)).
Proof.
  apply StronglySorted_le_NoDup.
  - apply StronglySorted_merge_sort; apply _.
  - unfold sort_values. rewrite merge_sort_Permutation. apply NoDup_unique.
Qed.

Lemma elem_of_history_dates l x : x ∈ sort_values (unique l) ↔ x ∈ l.
Proof. by rewrite elem_of_sort_values, elem_of_unique. Qed.

(** On a frame whose dates already ascend strictly, they are the
    dates of the frame, in the same order. *)
Lemma history_dates_of_ascending l :
  StronglySorted Z.lt l → sort_values (unique l) = l.
Proof.
  intros Hl. rewrite unique_ascending by done.
  by apply sort_values_sorted, StronglySorted_lt_le.
Qed.

Lemma foldl_max_spec l x :
  foldl Z.max x l ∈ x :: l ∧ Forall (λ z, (z ≤ foldl Z.max x l)%Z) (x :: l).
Proof.
  revert x. induction l as [|a l IH]; intros x; simpl.
  - split; [apply elem_of_cons; by left | by repeat constructor].
  - destruct (IH (Z.max x a)) as [Hin Hall]. split.
    + apply elem_of_cons in Hin as [Heq | Hin].
      * rewrite Heq. destruct (Z.max_spec x a) as [[_ ->] | [_ ->]];
          rewrite !elem_of_cons; auto.
      * rewrite !elem_of_cons; auto.
    + apply Forall_cons in Hall as [Hm Hall].
      repeat constructor; [lia | lia | done].
Qed.

Lemma date_max_spec l m :
  date_max l = Some m ↔ m ∈ l ∧ Forall (λ z, (z ≤ m)%Z) l.
Proof.
  split.
  - destruct l as [|x l]; simpl; [done|]. intros [= <-].
    apply foldl_max_spec.
  - intros [Hin Hall]. destruct l as [|x l]; simpl.
    + by apply elem_of_nil in Hin.
    + f_equal. destruct (foldl_max_spec l x) as [Hin' Hall'].
      rewrite Forall_forall in Hall, Hall'.
      specialize (Hall _ Hin'). specialize (Hall' _ Hin). simpl in *. lia.
Qed.

Lemma date_max_is_Some l : l ≠ [] → is_Some (date_max l).
Proof. destruct l; [done | by eexists]. Qed.

(** The maximum only depends on the dates that occur. *)
Lemma date_max_ext l1 l2 :
  (∀ x, x ∈ l1 ↔ x ∈ l2) → date_max l1 = date_max l2.
Proof.
  intros Hext. destruct (date_max l1) as [m|] eqn:Hm.
  - symmetry. apply date_max_spec. apply date_max_spec in Hm as [Hin Hall].
    split; [by apply Hext|].
    rewrite Forall_forall in Hall |- *. intros x Hx. apply Hall. by apply Hext.
  - destruct l1 as [|a l1]; [|done]. destruct l2 as [|b l2]; [done|].
    exfalso. eapply elem_of_nil, Hext. by left.
Qed.

Lemma filter_after_start last_date s k :
  1 ≤ s →
  filter (λ d, (last_date < d)%Z)
    ((λ i : nat, (last_date + Z.of_nat i)%Z) <$> seq s k)
  = (λ i : nat, (last_date + Z.of_nat i)%Z) <$> seq s k.
Proof.
  revert s. induction k as [|k IH]; intros s Hs; simpl; [done|].
  rewrite filter_cons_True by lia. rewrite IH by lia. done.
Qed.

(** The future part of [make_future_dataframe]: the start date is
    dropped and [periods] consecutive days remain. *)
Lemma future_dates_eq last_date periods :
  take periods
    (filter (λ d, (last_date < d)%Z) (date_range last_date (periods + 1)))
  = horizon_dates last_date periods.
Proof.
  unfold date_range, horizon_dates.
  rewrite Nat.add_1_r. simpl seq. rewrite fmap_cons.
  rewrite filter_cons_False by lia.
  rewrite filter_after_start by lia.
  apply take_ge. by rewrite length_fmap, length_seq.
Qed.

Lemma horizon_dates_after last_date periods :
  Forall (Z.lt last_date) (horizon_dates last_date periods).
Proof.
  unfold horizon_dates. apply Forall_fmap, Forall_seq. intros; simpl; lia.
Qed.

Lemma horizon_dates_ascending last_date periods :
  StronglySorted Z.lt (horizon_dates last_date periods).
Proof.
  unfold horizon_dates. generalize 1 as s.
  induction periods as [|k IH]; intros s; simpl; constructor; [apply IH|].
  apply Forall_fmap, Forall_seq. intros; simpl; lia.
Qed.

Lemma length_horizon_dates last_date periods :
  length (horizon_dates last_date periods) = periods.
Proof. unfold horizon_dates. by rewrite length_fmap, length_seq. Qed.
End Dates.

(** ** The forecast frame *)

Section Forecast.
Context {A : Type} `{Numeric A}.
Context {Params RandomState : Type}.
Variable stan_fit : list (obs A) → Params.
Variable predict_yhat : Params → Z → A.
Variable predict_uncertainty :
  Params → RandomState → list Z → nat → A * A.
Variable advance : RandomState → RandomState.

Local Abbreviation train := (train_prophet_model stan_fit).
Local Abbreviation forecast_of :=
  (make_forecast predict_yhat predict_uncertainty advance).
Local Abbreviation predict_of :=
  (predict predict_yhat predict_uncertainty advance).

Lemma train_inv df model :
  train df = Ok model →
  history_dates model = sort_values (unique (ds <$> df)) ∧
  params model = stan_fit (filter (λ r, negb (isnan (y r))) df) ∧
  2 ≤ length (filter (λ r, negb (isnan (y r))) df).
Proof.
  unfold train_prophet_model.
  destruct (length _ <? 2) eqn:Hlen; [done|].
  destruct (existsb _ _); [done|].
  destruct (_ && _); [done|].
  intros [= <-]. apply Nat.ltb_ge in Hlen. done.
Qed.

Lemma train_nonempty df model : train df = Ok model → df ≠ [].
Proof. intros (_ & _ & Hlen)%train_inv ->. simpl in Hlen. lia. Qed.

Lemma predict_dates model future rng :
  f_ds <$> (predict_of model future rng).1 = sort_values future.
Proof.
  unfold predict. cbn [fst]. rewrite fmap_imap.
  transitivity ((λ d : Z, d) <$> sort_values future).
  - rewrite <- imap_const. by apply imap_ext.
  - apply list_fmap_id.
Qed.

Lemma predict_yhats model future rng :
  yhat <$> (predict_of model future rng).1
  = predict_yhat (params model) <$> sort_values future.
Proof.
  unfold predict. cbn [fst]. rewrite fmap_imap.
  transitivity (imap (const (predict_yhat (params model))) (sort_values future)).
  - by apply imap_ext.
  - apply imap_const.
Qed.

Lemma predict_state model future rng :
  (predict_of model future rng).2 = advance rng.
Proof. done. Qed.

(** The dates of the forecast of a trained model. *)
Lemma make_forecast_trained df model periods rng :
  train df = Ok model →
  ∃ last_date forecast,
    date_max (ds <$> df) = Some last_date ∧
    forecast_of model periods rng = Ok (forecast, advance rng) ∧
    f_ds <$> forecast
      = sort_values (unique (ds <$> df)) ++ horizon_dates last_date periods.
Proof.
  intros Htrain.
  destruct (train_inv _ _ Htrain) as (Hdates & _ & _).
  assert (Hne : ds <$> df ≠ []).
  { intros Hnil. apply fmap_nil_inv in Hnil.
    by apply (train_nonempty _ _ Htrain). }
  destruct (date_max_is_Some _ Hne) as [last_date Hlast].
  assert (Hlast' : date_max (history_dates model) = Some last_date).
  { rewrite Hdates, <- Hlast. apply date_max_ext. apply elem_of_history_dates. }
  exists last_date.
  unfold make_forecast, make_future_dataframe. rewrite Hlast'. simpl.
  rewrite future_dates_eq.
  eexists. split; [done|]. split.
  - rewrite (surjective_pairing (predict_of _ _ _)). by rewrite predict_state.
  - rewrite predict_dates, Hdates. apply sort_values_sorted.
    apply StronglySorted_lt_le, StronglySorted_app_2.
    + intros x1 x2 Hx1 Hx2.
      rewrite elem_of_history_dates in Hx1.
      apply date_max_spec in Hlast as [_ Hall].
      rewrite Forall_forall in Hall. specialize (Hall _ Hx1).
      pose proof (horizon_dates_after last_date periods) as Hafter.
      rewrite Forall_forall in Hafter. specialize (Hafter _ Hx2).
      simpl in *. lia.
    + apply history_dates_ascending.
    + apply horizon_dates_ascending.
Qed.
(** C3: after a successful fit, [make_forecast] returns a forecast, for
    every number of periods, that has a row for each date of the fitted
    frame and exactly [periods] further rows, one per calendar day after
    the last observed date, with all dates in strictly ascending order. *)
Theorem C3_forecast_covers_history_and_horizon df model periods rng :
  train_prophet_model stan_fit df = Ok model →
  ∃ forecast rng',
    make_forecast predict_yhat predict_uncertainty advance model periods rng
      = Ok (forecast, rng') ∧
    covers_history_and_horizon df periods forecast.
Proof.
  intros Htrain.
  destruct (make_forecast_trained df model periods rng Htrain)
    as (last_date & forecast & Hlast & Hrun & Hdates).
  exists forecast, (advance rng). split; [done|].
  exists last_date. rewrite Hdates.
  pose proof (proj1 (date_max_spec _ _) Hlast) as [_ Hall].
  rewrite Forall_forall in Hall.
  pose proof (horizon_dates_after last_date periods) as Hafter.
  rewrite Forall_forall in Hafter.
  split; [done|]. split; [|split; [|split]].
  - intros r Hr. apply elem_of_app. left.
    apply elem_of_history_dates. by apply list_elem_of_fmap_2.
  - rewrite filter_app.
    replace (filter _ (sort_values _)) with (@nil Z).
    + simpl. clear Hdates Hrun. induction (horizon_dates last_date periods)
        as [|d l IH]; [done|].
      rewrite filter_cons_True by (apply Hafter; by left).
      rewrite IH; [done|]. intros x Hx. apply Hafter. by right.
    + symmetry. clear Hdates Hrun.
      assert (Hle : ∀ x, x ∈ sort_values (unique (ds <$> df)) → (x ≤ last_date)%Z).
      { intros x Hx. apply Hall. by apply elem_of_history_dates. }
      induction (sort_values (unique (ds <$> df))) as [|d l IH]; [done|].
      rewrite filter_cons_False.
      * apply IH. intros x Hx. apply Hle. by right.
      * intros Hlt. assert (d ≤ last_date)%Z by (apply Hle; by left). lia.
  - intros d [Hd | Hd]%elem_of_app Hle.
    + by apply elem_of_history_dates.
    + specialize (Hafter _ Hd). simpl in Hafter. lia.
  - apply StronglySorted_app_2.
    + intros x1 x2 Hx1 Hx2. rewrite elem_of_history_dates in Hx1.
      specialize (Hall _ Hx1). specialize (Hafter _ Hx2). simpl in *. lia.
    + apply history_dates_ascending.
    + apply horizon_dates_ascending.
Qed.

(** C1 (as amended): [evaluate] pairs rows by position.  When the dates
    of the fetched frame ascend strictly, every actual row is scored, each
    against the forecast row of the same date, and the values compared are
    the [y] and [yhat] of these rows. *)
Theorem C1_positional_pairs_match_on_ascending_dates
    df model periods rng forecast rng' :
  StronglySorted Z.lt (ds <$> df) →
  train_prophet_model stan_fit df = Ok model →
  make_forecast predict_yhat predict_uncertainty advance model periods rng
    = Ok (forecast, rng') →
  timestamps_match (scored_pairs df forecast) ∧
  (scored_pairs df forecast).*1 = df ∧
  evaluate df forecast
    = calculate_performance_metrics
        (y <$> (scored_pairs df forecast).*1)
        (yhat <$> (scored_pairs df forecast).*2).
Proof.
  intros Hasc Htrain Hrun.
  destruct (make_forecast_trained df model periods rng Htrain)
    as (last_date & forecast' & _ & Hrun' & Hdates).
  rewrite Hrun in Hrun'. injection Hrun' as <- _.
  rewrite history_dates_of_ascending in Hdates by done.
  assert (Htake : f_ds <$> take (length df) forecast = ds <$> df).
  { rewrite fmap_take, Hdates.
    rewrite <- (length_fmap ds df). apply take_app_length. }
  assert (Hlen : length (take (length df) forecast) = length df).
  { rewrite <- (length_fmap f_ds), Htake. apply length_fmap. }
  assert (Hfst : (scored_pairs df forecast).*1 = df).
  { unfold scored_pairs. apply fst_zip. lia. }
  assert (Hsnd : (scored_pairs df forecast).*2 = take (length df) forecast).
  { unfold scored_pairs. apply snd_zip. lia. }
  split; [|split; [done|]].
  - unfold timestamps_match, scored_pairs.
    revert Htake. generalize (take (length df) forecast) as fs.
    clear. induction df as [|a0 df IH]; intros [|p0 fs] Heq a p Hin;
      simpl in *; try (by apply elem_of_nil in Hin).
    injection Heq as Hhd Htl.
    apply elem_of_cons in Hin as [[= -> ->] | Hin]; [done|].
    by apply (IH fs).
  - rewrite Hfst, Hsnd. unfold evaluate. by rewrite fmap_take.
Qed.
End Forecast.

(** ** Fetching and fitting *)

Section Fetch.
Context {A : Type} `{Numeric A}.
Variable yf_download : string → Z → Z → list (quote A).
Context {Params : Type}.
Variable stan_fit : list (obs A) → Params.

Local Abbreviation fetch := (fetch_stock_data yf_download).

Lemma fetch_dates ticker s e :
  ds <$> fetch ticker s e = Date <$> yf_download ticker s e.
Proof. unfold fetch_stock_data. by rewrite <- list_fmap_compose. Qed.

Lemma fetch_prices ticker s e :
  y <$> fetch ticker s e = AdjClose <$> yf_download ticker s e.
Proof. unfold fetch_stock_data. by rewrite <- list_fmap_compose. Qed.

Lemma fetch_length ticker s e :
  length (fetch ticker s e) = length (yf_download ticker s e).
Proof. unfold fetch_stock_data. apply length_fmap. Qed.

Lemma train_short df :
  length (filter (λ r, negb (isnan (y r))) df) < 2 →
  train_prophet_model stan_fit df = Raise ValueError.
Proof.
  intros Hshort. unfold train_prophet_model.
  apply Nat.ltb_lt in Hshort. by rewrite Hshort.
Qed.

(** C2 (as amended): [fetch_stock_data] hands on every downloaded row,
    however few there are, and raises nothing; a frame with fewer than two
    rows of known price is refused one step later, by the fit, with a
    [ValueError]. *)
Theorem C2_short_frame_returned_then_refused_by_fit ticker s e :
  length (filter (λ r, negb (isnan (y r)))
            (fetch_stock_data yf_download ticker s e)) < 2 →
  length (fetch_stock_data yf_download ticker s e)
    = length (yf_download ticker s e) ∧
  train_prophet_model stan_fit (fetch_stock_data yf_download ticker s e)
    = Raise ValueError.
Proof. intros Hshort. split; [apply fetch_length | by apply train_short]. Qed.

(** C6 (as amended): [fetch_stock_data] keeps the downloaded rows, one
    for one and in the downloaded order, with [ds] the date and [y] the
    adjusted close; so when the downloaded dates ascend strictly, the dates
    of its output ascend strictly and no two of them are equal. *)
Theorem C6_fetch_keeps_rows_and_order ticker s e :
  StronglySorted Z.lt (Date <$> yf_download ticker s e) →
  ds <$> fetch_stock_data yf_download ticker s e
    = Date <$> yf_download ticker s e ∧
  y <$> fetch_stock_data yf_download ticker s e
    = AdjClose <$> yf_download ticker s e ∧
  StronglySorted Z.lt (ds <$> fetch_stock_data yf_download ticker s e) ∧
  NoDup (ds <$> fetch_stock_data yf_download ticker s e).
Proof.
  intros Hasc. rewrite fetch_dates, fetch_prices.
  split; [done|]. split; [done|]. split; [done|].
  rewrite <- (history_dates_of_ascending _ Hasc).
  unfold sort_values. rewrite merge_sort_Permutation. apply NoDup_unique.
Qed.
End Fetch.

(** ** Input validation of the metrics *)

Section Validation.
Context {A : Type} `{Numeric A}.
Implicit Types t p : list A.

Lemma check_reg_targets_cases t p :
  check_reg_targets t p = Ok (t, p) ∨ check_reg_targets t p = Raise ValueError.
Proof.
  unfold check_reg_targets.
  repeat match goal with |- context [if ?b then _ else _] => destruct b end;
    auto.
Qed.

Lemma forallb_eq_true (f : A → bool) (l : list A) :
  forallb f l = true ↔ Forall (λ x, f x = true) l.
Proof.
  induction l as [|x l IH]; simpl.
  - split; [constructor | done].
  - rewrite andb_true_iff, Forall_cons, IH. done.
Qed.

Lemma check_reg_targets_Ok t p :
  check_reg_targets t p = Ok (t, p) ↔
  length t = length p ∧ t ≠ [] ∧
  Forall (λ x, isfinite x = true) t ∧ Forall (λ x, isfinite x = true) p.
Proof.
  rewrite <- !forallb_eq_true. unfold check_reg_targets.
  destruct (length t =? length p) eqn:Hlen; simpl.
  - apply Nat.eqb_eq in Hlen.
    destruct (forallb isfinite t), (forallb isfinite p); simpl;
      try (split; [done | by intros (_ & _ & ? & ?)]).
    destruct t as [|x t]; simpl; [split; [done | by intros (_ & ? & _)]|].
    done.
  - apply Nat.eqb_neq in Hlen. split; [done | by intros (? & _)].
Qed.

Lemma calculate_performance_metrics_Ok t p :
  (∃ m, calculate_performance_metrics t p = Ok m) ↔
  check_reg_targets t p = Ok (t, p).
Proof.
  unfold calculate_performance_metrics, mean_absolute_error, mean_squared_error.
  destruct (check_reg_targets_cases t p) as [-> | ->]; simpl.
  - split; [done | eauto].
  - split; [by intros [? ?] | done].
Qed.

Lemma calculate_performance_metrics_cases t p :
  (∃ m, calculate_performance_metrics t p = Ok m) ∨
  calculate_performance_metrics t p = Raise ValueError.
Proof.
  unfold calculate_performance_metrics, mean_absolute_error, mean_squared_error.
  destruct (check_reg_targets_cases t p) as [-> | ->]; simpl; eauto.
Qed.

(** Whatever the numeric type, [RMSE] is the square root of [MSE]. *)
Lemma rmse_is_sqrt_of_mse t p m :
  calculate_performance_metrics t p = Ok m → RMSE m = nsqrt (MSE m).
Proof.
  unfold calculate_performance_metrics, mean_absolute_error, mean_squared_error.
  destruct (check_reg_targets_cases t p) as [-> | ->]; simpl; [|done].
  by intros [= <-].
Qed.

(** C5 (as amended): [evaluate] never looks at a date.  It returns a
    report exactly when there is at least one actual row, at least as many
    forecast rows, and every compared value is finite, whether or not any
    date of the two frames agrees; otherwise it raises [ValueError]. *)
Theorem C5_evaluate_reports_whatever_the_timestamps
    (df : list (obs A)) (forecast : list (fc A)) :
  ((∃ m, evaluate df forecast = Ok m) ↔ scorable df forecast) ∧
  ((∃ m, evaluate df forecast = Ok m) ∨
   evaluate df forecast = Raise ValueError) ∧
  (∀ df' forecast',
     y <$> df' = y <$> df → yhat <$> forecast' = yhat <$> forecast →
     evaluate df' forecast' = evaluate df forecast).
Proof.
  split; [|split].
  - unfold evaluate, scorable.
    rewrite calculate_performance_metrics_Ok, check_reg_targets_Ok.
    rewrite length_fmap, length_take, length_fmap, <- fmap_take.
    rewrite !Forall_fmap.
    assert (df = [] ↔ y <$> df = []) as Hnil.
    { split; [by intros -> | apply fmap_nil_inv]. }
    rewrite <- Hnil. unfold compose.
    split; intros (? & ? & ? & ?); repeat split; try done; lia.
  - apply calculate_performance_metrics_cases.
  - intros df' forecast' Hy Hyhat. unfold evaluate.
    rewrite Hy, Hyhat.
    by rewrite <- (length_fmap y df'), Hy, length_fmap.
Qed.
End Validation.

(** ** The horizon *)

Section Horizon.
Context {A : Type} `{Numeric A}.
Variable yf_download : string → Z → Z → list (quote A).
Context {Params RandomState : Type}.
Variable stan_fit : list (obs A) → Params.
Variable predict_yhat : Params → Z → A.
Variable predict_uncertainty :
  Params → RandomState → list Z → nat → A * A.
Variable advance : RandomState → RandomState.

Local Ltac solve_elem :=
  unfold listed_horizons, horizon_options; rewrite !elem_of_cons; auto 10.

Lemma forecast_days_options :
  forecast_days <$> horizon_options = Ok <$> listed_horizons.
Proof. vm_compute. reflexivity. Qed.

(** C9: for each of the four options of the select box, the lookup in
    [horizon_mapping] succeeds with one of 365, 730, 1095 and 1825, never
    0; each of the four values belongs to some option; and a run passes
    exactly that value on to the forecasting steps. *)
Theorem C9_horizon_is_one_of_four
    ticker_symbol start_date end_date forecast_horizon button rng :
  forecast_horizon ∈ horizon_options →
  ∃ days,
    forecast_days forecast_horizon = Ok days ∧
    days ∈ listed_horizons ∧ days ≠ 0 ∧
    (∀ d, d ∈ listed_horizons →
          ∃ sel, sel ∈ horizon_options ∧ forecast_days sel = Ok d) ∧
    main yf_download stan_fit predict_yhat predict_uncertainty advance
         ticker_symbol start_date end_date forecast_horizon button rng
    = if button then
        shown ← forecast_on_button yf_download stan_fit predict_yhat
                   predict_uncertainty advance
                   ticker_symbol start_date end_date days rng;
        Ok (Some shown)
      else Ok None.
Proof.
  intros Hsel.
  assert (∃ days, forecast_days forecast_horizon = Ok days ∧
                  days ∈ listed_horizons ∧ days ≠ 0) as (days & Hdays & Hin & Hnz).
  { unfold horizon_options in Hsel.
    repeat (apply elem_of_cons in Hsel as [-> | Hsel];
            [eexists; split; [vm_compute; reflexivity|];
             split; [solve_elem | done] |]).
    by apply elem_of_nil in Hsel. }
  exists days. repeat split; try done.
  - intros d Hd. unfold listed_horizons in Hd.
    repeat (apply elem_of_cons in Hd as [-> | Hd]).
    + exists "1 year". split; [solve_elem | by vm_compute].
    + exists "2 years". split; [solve_elem | by vm_compute].
    + exists "3 years". split; [solve_elem | by vm_compute].
    + exists "5 years". split; [solve_elem | by vm_compute].
    + by apply elem_of_nil in Hd.
  - unfold main. by rewrite Hdays.
Qed.
End Horizon.

(** ** NumPy's summation *)

Section Summation.
Context {A : Type} `{Numeric A}.
Implicit Types a r : list A.

Lemma pairwise_sum_0 a :
  pairwise_sum 0 a
  = if length a <? 8 then foldl nadd nzero a
    else if length a <=? 128 then
      let '(r, rest) := blocks_sum (length a / 8 - 1) (take 8 a) (drop 8 a) in
      foldl nadd (tree8 r) rest
    else foldl nadd nzero a.
Proof. done. Qed.

Lemma pairwise_sum_S fuel a :
  pairwise_sum (S fuel) a
  = if length a <? 8 then foldl nadd nzero a
    else if length a <=? 128 then
      let '(r, rest) := blocks_sum (length a / 8 - 1) (take 8 a) (drop 8 a) in
      foldl nadd (tree8 r) rest
    else
      nadd (pairwise_sum fuel
              (take (length a / 2 - (length a / 2) mod 8) a))
           (pairwise_sum fuel
              (drop (length a / 2 - (length a / 2) mod 8) a)).
Proof. done. Qed.

(** The length of the array is fuel enough: more fuel changes
    nothing. *)
Lemma pairwise_sum_fuel fuel1 fuel2 a :
  length a ≤ fuel1 → length a ≤ fuel2 →
  pairwise_sum fuel1 a = pairwise_sum fuel2 a.
Proof.
  revert fuel2 a. induction fuel1 as [|fuel1 IH]; intros fuel2 a H1 H2.
  - destruct a; [|simpl in H1; lia]. by destruct fuel2.
  - destruct fuel2 as [|fuel2].
    { destruct a; [done | simpl in H2; lia]. }
    rewrite !pairwise_sum_S.
    destruct (length a <? 8) eqn:H8; [done|].
    destruct (length a <=? 128) eqn:H128; [done|].
    apply Nat.leb_gt in H128.
    assert (Hn2 : 1 ≤ length a / 2 - (length a / 2) mod 8 < length a).
    { pose proof (Nat.mod_upper_bound (length a / 2) 8).
      pose proof (Nat.div_mod_eq (length a) 2).
      pose proof (Nat.mod_upper_bound (length a) 2). lia. }
    f_equal; apply IH; rewrite ?length_take, ?length_drop; lia.
Qed.

(** What is closed under addition and holds of zero and of every
    element holds of the sum. *)
Section Closed.
Variable P : A → Prop.
Hypothesis P_zero : P nzero.
Hypothesis P_add : ∀ x y, P x → P y → P (nadd x y).

Lemma foldl_closed x a : P x → Forall P a → P (foldl nadd x a).
Proof.
  intros Hx Ha. revert x Hx.
  induction Ha as [|y a Hy _ IH]; intros x Hx; simpl; [done|].
  apply IH. by apply P_add.
Qed.

Lemma zip_with_closed r a :
  Forall P r → Forall P a → Forall P (zip_with nadd r a).
Proof.
  intros Hr. revert a. induction Hr as [|x r Hx _ IH]; intros a Ha; [done|].
  destruct Ha as [|y a Hy Ha]; simpl; [done|].
  constructor; [by apply P_add | by apply IH].
Qed.

Lemma blocks_sum_closed k r a :
  Forall P r → Forall P a →
  Forall P (blocks_sum k r a).1 ∧ Forall P (blocks_sum k r a).2.
Proof.
  revert r a. induction k as [|k IH]; intros r a Hr Ha; simpl; [done|].
  apply IH.
  - apply zip_with_closed; [done | by apply Forall_take].
  - by apply Forall_drop.
Qed.

Lemma tree8_closed r : Forall P r → P (tree8 r).
Proof.
  intros Hr.
  assert (Hf : P (foldl nadd nzero r)) by (by apply foldl_closed).
  unfold tree8.
  destruct r as [|r0 [|r1 [|r2 [|r3 [|r4 [|r5 [|r6 [|r7 [|r8 r]]]]]]]]];
    try exact Hf.
  repeat (apply Forall_cons in Hr as [? Hr]). auto 20.
Qed.

Lemma pairwise_sum_closed fuel a : Forall P a → P (pairwise_sum fuel a).
Proof.
  revert a. induction fuel as [|fuel IH]; intros a Ha.
  - rewrite pairwise_sum_0.
    destruct (length a <? 8); [by apply foldl_closed|].
    destruct (length a <=? 128); [|by apply foldl_closed].
    destruct (blocks_sum_closed (length a / 8 - 1) (take 8 a) (drop 8 a))
      as [Hr Hrest]; [by apply Forall_take | by apply Forall_drop |].
    destruct (blocks_sum _ _ _) as [r rest]. simpl in *.
    apply foldl_closed; [by apply tree8_closed | done].
  - rewrite pairwise_sum_S.
    destruct (length a <? 8); [by apply foldl_closed|].
    destruct (length a <=? 128).
    + destruct (blocks_sum_closed (length a / 8 - 1) (take 8 a) (drop 8 a))
        as [Hr Hrest]; [by apply Forall_take | by apply Forall_drop |].
      destruct (blocks_sum _ _ _) as [r rest]. simpl in *.
      apply foldl_closed; [by apply tree8_closed | done].
    + apply P_add; apply IH; [by apply Forall_take | by apply Forall_drop].
Qed.

Lemma np_sum_closed a : Forall P a → P (np_sum a).
Proof. intros Ha. apply P_add; [done | by apply pairwise_sum_closed]. Qed.
End Closed.
End Summation.

(** ** The metrics in exact arithmetic *)

Section ExactMetrics.
Implicit Types l : list R.
Implicit Types pairs : list (R * R).

Lemma foldl_Rplus l x : foldl Rplus x l = (x + Rsum l)%R.
Proof.
  revert x. induction l as [|a l IH]; intros x; simpl.
  - unfold Rsum. simpl. lra.
  - rewrite IH. unfold Rsum. simpl. lra.
Qed.

Lemma Rsum_app l1 l2 : Rsum (l1 ++ l2) = (Rsum l1 + Rsum l2)%R.
Proof.
  induction l1 as [|a l1 IH].
  - change (Rsum []) with 0%R. simpl. lra.
  - change (Rsum ((a :: l1) ++ l2)) with (a + Rsum (l1 ++ l2))%R.
    change (Rsum (a :: l1)) with (a + Rsum l1)%R. rewrite IH. lra.
Qed.

Lemma Rsum_take_drop n l : (Rsum (take n l) + Rsum (drop n l))%R = Rsum l.
Proof. by rewrite <- Rsum_app, take_drop. Qed.

Lemma Rsum_zip_with r l :
  length r = length l → Rsum (zip_with Rplus r l) = (Rsum r + Rsum l)%R.
Proof.
  revert l. induction r as [|x r IH]; intros [|y l] Hlen; simpl in *; try done.
  - change (Rsum []) with 0%R. lra.
  - change (Rsum (x + y :: zip_with Rplus r l)%R)
      with ((x + y) + Rsum (zip_with Rplus r l))%R.
    change (Rsum (x :: r)) with (x + Rsum r)%R.
    change (Rsum (y :: l)) with (y + Rsum l)%R.
    rewrite IH by lia. lra.
Qed.

Lemma blocks_sum_exact k r l :
  length r = 8 → 8 * k ≤ length l →
  length (blocks_sum k r l).1 = 8 ∧
  (Rsum (blocks_sum k r l).1 + Rsum (blocks_sum k r l).2)%R
  = (Rsum r + Rsum l)%R.
Proof.
  revert r l. induction k as [|k IH]; intros r l Hr Hl; [done|].
  change (blocks_sum (S k) r l)
    with (blocks_sum k (zip_with nadd r (take 8 l)) (drop 8 l)).
  assert (Htake : length (take 8 l) = 8) by (rewrite length_take; lia).
  destruct (IH (zip_with nadd r (take 8 l)) (drop 8 l)) as [Hlen Hsum].
  - rewrite length_zip_with. lia.
  - rewrite length_drop. lia.
  - split; [done|]. rewrite Hsum.
    change (zip_with nadd r (take 8 l)) with (zip_with Rplus r (take 8 l)).
    rewrite Rsum_zip_with by lia.
    rewrite <- (Rsum_take_drop 8 l). lra.
Qed.

Lemma tree8_exact r : length r = 8 → tree8 r = Rsum r.
Proof.
  intros Hr. do 9 (destruct r as [|? r]; try done).
  unfold Rsum. simpl. lra.
Qed.

Lemma unrolled_sum_exact l :
  8 ≤ length l →
  (let '(r, rest) := blocks_sum (length l / 8 - 1) (take 8 l) (drop 8 l) in
   foldl nadd (tree8 r) rest) = Rsum l.
Proof.
  intros H8.
  destruct (blocks_sum_exact (length l / 8 - 1) (take 8 l) (drop 8 l))
    as [Hlen Hsum].
  - rewrite length_take. lia.
  - rewrite length_drop. pose proof (Nat.div_mod_eq (length l) 8). lia.
  - destruct (blocks_sum _ _ _) as [r rest]. simpl in *.
    change (foldl nadd (tree8 r) rest) with (foldl Rplus (tree8 r) rest).
    rewrite foldl_Rplus, tree8_exact, Hsum by done.
    apply Rsum_take_drop.
Qed.

Lemma sequential_sum_exact l : foldl nadd nzero l = Rsum l.
Proof.
  change (foldl nadd nzero l) with (foldl Rplus 0%R l).
  rewrite foldl_Rplus. lra.
Qed.

Lemma pairwise_sum_exact fuel l : pairwise_sum fuel l = Rsum l.
Proof.
  revert l. induction fuel as [|fuel IH]; intros l.
  - rewrite pairwise_sum_0.
    destruct (length l <? 8) eqn:H8; [apply sequential_sum_exact|].
    destruct (length l <=? 128); [|apply sequential_sum_exact].
    apply Nat.ltb_ge in H8. by apply unrolled_sum_exact.
  - rewrite pairwise_sum_S.
    destruct (length l <? 8) eqn:H8; [apply sequential_sum_exact|].
    destruct (length l <=? 128).
    + apply Nat.ltb_ge in H8. by apply unrolled_sum_exact.
    + rewrite !IH. apply Rsum_take_drop.
Qed.

Lemma average_exact l : average l = Rmean l.
Proof.
  unfold average, Rmean, np_sum. rewrite pairwise_sum_exact. simpl.
  f_equal. lra.
Qed.

Lemma Rsum_cons a l : Rsum (a :: l) = (a + Rsum l)%R.
Proof. done. Qed.

Lemma Rsum_nonneg l : Forall (Rle 0) l → (0 <= Rsum l)%R.
Proof.
  induction 1 as [|a l Ha _ IH]; [unfold Rsum; simpl; lra|].
  rewrite Rsum_cons. lra.
Qed.

Lemma INR_length_pos l : l ≠ [] → (0 < INR (length l))%R.
Proof.
  destruct l as [|a l]; [done|]. intros _. apply lt_0_INR. simpl. lia.
Qed.

Lemma Rmean_nonneg l : l ≠ [] → Forall (Rle 0) l → (0 <= Rmean l)%R.
Proof.
  intros Hne Hall. unfold Rmean.
  apply Rmult_le_pos; [by apply Rsum_nonneg|].
  apply Rlt_le, Rinv_0_lt_compat. by apply INR_length_pos.
Qed.

(** The sum of the squared distances of the elements to any [x]. *)
Lemma sum_sq_dist_nonneg l x :
  (0 <= INR (length l) * (x * x) - 2 * x * Rsum l + Rsum (Rsq <$> l))%R.
Proof.
  induction l as [|a l IH].
  - unfold Rsum. simpl. lra.
  - rewrite fmap_cons, !Rsum_cons. change (length (a :: l)) with (S (length l)).
    rewrite S_INR. unfold Rsq at 1.
    match goal with |- (0 <= ?e)%R =>
      replace e with
        ((INR (length l) * (x * x) - 2 * x * Rsum l + Rsum (Rsq <$> l))
         + (x - a) * (x - a))%R by ring
    end.
    apply Rplus_le_le_0_compat; [exact IH | exact (Rle_0_sqr (x - a))].
Qed.

(** The square of a sum is at most the count times the sum of the
    squares. *)
Lemma sq_sum_le l :
  (Rsum l * Rsum l <= INR (length l) * Rsum (Rsq <$> l))%R.
Proof.
  induction l as [|a l IH].
  - unfold Rsum. simpl. lra.
  - rewrite fmap_cons, !Rsum_cons. change (length (a :: l)) with (S (length l)).
    rewrite S_INR. unfold Rsq at 1.
    pose proof (sum_sq_dist_nonneg l a) as Hdist.
    set (n := INR (length l)) in *. set (s := Rsum l) in *.
    set (q := Rsum (Rsq <$> l)) in *.
    assert (Hsplit : ((n + 1) * (a * a + q) - (a + s) * (a + s)
                      = (n * q - s * s) + (n * (a * a) - 2 * a * s + q))%R)
      by ring.
    lra.
Qed.

Lemma sq_Rmean_le l :
  l ≠ [] → (Rmean l * Rmean l <= Rmean (Rsq <$> l))%R.
Proof.
  intros Hne. unfold Rmean. rewrite length_fmap.
  pose proof (INR_length_pos l Hne) as Hn.
  pose proof (sq_sum_le l) as Hcs.
  set (n := INR (length l)) in *. set (s := Rsum l) in *.
  set (q := Rsum (Rsq <$> l)) in *.
  assert (Hinv : (0 < / n)%R) by by apply Rinv_0_lt_compat.
  unfold Rdiv.
  replace (s * / n * (s * / n))%R with ((s * s) * (/ n * / n))%R by ring.
  replace (q * / n)%R with ((n * q) * (/ n * / n))%R by (field; lra).
  apply Rmult_le_compat_r; [nra | done].
Qed.

Lemma zip_with_pairs {B : Type} (f : R → R → B) pairs :
  zip_with f pairs.*1 pairs.*2 = (λ ap, f ap.1 ap.2) <$> pairs.
Proof.
  induction pairs as [|[a p] pairs IH]; [done|].
  rewrite !fmap_cons. simpl. f_equal. exact IH.
Qed.

Lemma check_reg_targets_exact (t p : list R) :
  length t = length p → t ≠ [] → check_reg_targets t p = Ok (t, p).
Proof.
  intros Hlen Hne. apply check_reg_targets_Ok.
  repeat split; try done; apply Forall_forall; done.
Qed.

Lemma pairs_of_lists (t p : list R) :
  length t = length p → (zip t p).*1 = t ∧ (zip t p).*2 = p.
Proof. intros Hlen. split; [apply fst_zip | apply snd_zip]; lia. Qed.

(** The report on a non-empty set of pairs. *)
Lemma calculate_performance_metrics_exact pairs :
  pairs ≠ [] →
  calculate_performance_metrics pairs.*1 pairs.*2
  = Ok {| MAE := mean_abs_diff pairs;
          MSE := mean_sq_diff pairs;
          RMSE := R_sqrt.sqrt (mean_sq_diff pairs) |}.
Proof.
  intros Hne.
  unfold calculate_performance_metrics, mean_absolute_error, mean_squared_error.
  rewrite check_reg_targets_exact; cbv [mbind result_bind]; cbv beta iota.
  - rewrite !average_exact, !zip_with_pairs.
    unfold mean_abs_diff, mean_sq_diff. do 2 f_equal.
    f_equal. apply list_fmap_ext. intros _ [a p] _. simpl. apply Rabs_minus_sym.
  - by rewrite !length_fmap.
  - intros Hnil. by apply fmap_nil_inv in Hnil.
Qed.

Lemma mean_sq_diff_nonneg pairs : pairs ≠ [] → (0 <= mean_sq_diff pairs)%R.
Proof.
  intros Hne. apply Rmean_nonneg.
  - intros Hnil. by apply fmap_nil_inv in Hnil.
  - apply Forall_fmap, Forall_forall. intros [a p] _. exact (Rle_0_sqr (a - p)).
Qed.

Lemma mean_abs_diff_nonneg pairs : pairs ≠ [] → (0 <= mean_abs_diff pairs)%R.
Proof.
  intros Hne. apply Rmean_nonneg.
  - intros Hnil. by apply fmap_nil_inv in Hnil.
  - apply Forall_fmap, Forall_forall. intros [a p] _. exact (Rabs_pos (a - p)).
Qed.

Lemma mean_abs_diff_le_root pairs :
  pairs ≠ [] → (mean_abs_diff pairs <= R_sqrt.sqrt (mean_sq_diff pairs))%R.
Proof.
  intros Hne.
  rewrite <- (sqrt_square (mean_abs_diff pairs)) by by apply mean_abs_diff_nonneg.
  apply sqrt_le_1_alt. unfold mean_abs_diff, mean_sq_diff.
  etransitivity.
  - apply sq_Rmean_le. intros Hnil. by apply fmap_nil_inv in Hnil.
  - rewrite <- list_fmap_compose. apply Req_le. f_equal.
    apply list_fmap_ext. intros _ [a p] _. unfold Rsq. simpl.
    rewrite <- Rabs_mult. apply Rabs_pos_eq. exact (Rle_0_sqr (a - p)).
Qed.


(** In exact real arithmetic, on sequences of equal, non-zero length,
    the report satisfies 0 <= MAE <= RMSE, and MSE and RMSE are
    non-negative as well. *)
Lemma mae_le_rmse_in_exact_arithmetic (actual predicted : list R) :
  length actual = length predicted → actual ≠ [] →
  ∃ m, calculate_performance_metrics actual predicted = Ok m ∧
       (0 <= MAE m)%R ∧ (MAE m <= RMSE m)%R ∧
       (0 <= MSE m)%R ∧ (0 <= RMSE m)%R.
Proof.
  intros Hlen Hne.
  destruct (pairs_of_lists actual predicted Hlen) as [Hfst Hsnd].
  assert (Hpairs : zip actual predicted ≠ []).
  { intros Hnil. apply Hne. by rewrite <- Hfst, Hnil. }
  eexists. split.
  - rewrite <- Hfst at 1. rewrite <- Hsnd at 2.
    by apply calculate_performance_metrics_exact.
  - simpl. split; [by apply mean_abs_diff_nonneg|].
    split; [by apply mean_abs_diff_le_root|].
    split; [by apply mean_sq_diff_nonneg | apply sqrt_pos].
Qed.
End ExactMetrics.

(** ** The metrics in binary64

    The sign of the results of the binary64 operations, read on their
    specification in [SpecFloat]. *)

Section Binary64.
Local Open Scope Z_scope.

Lemma shr_1_nonneg mrs : 0 ≤ shr_m mrs → 0 ≤ shr_m (shr_1 mrs).
Proof.
  destruct mrs as [m r s]. simpl. intros Hm.
  destruct m as [|[p|p|]|p]; simpl; lia.
Qed.

Lemma iter_pos_invariant {T : Type} (f : T → T) (Inv : T → Prop) :
  (∀ x, Inv x → Inv (f x)) → ∀ p x, Inv x → Inv (SpecFloat.iter_pos f p x).
Proof.
  intros Hf. induction p as [p IH|p IH|]; intros x Hx; simpl; auto.
Qed.

Lemma shr_nonneg mrs e n : 0 ≤ shr_m mrs → 0 ≤ shr_m (shr mrs e n).1.
Proof.
  intros Hm. unfold shr. destruct n as [|p|p]; simpl; try done.
  by apply (iter_pos_invariant shr_1 (λ r, 0 ≤ shr_m r)); auto using shr_1_nonneg.
Qed.

Lemma shr_record_of_loc_m m l : shr_m (shr_record_of_loc m l) = m.
Proof. by destruct l as [|[]]. Qed.

Lemma shr_fexp_nonneg m e l :
  0 ≤ m → 0 ≤ shr_m (shr_fexp prec emax m e l).1.
Proof.
  intros Hm. unfold shr_fexp. apply shr_nonneg.
  by rewrite shr_record_of_loc_m.
Qed.

Lemma round_nearest_even_bounds m l :
  m ≤ round_nearest_even m l ≤ m + 1.
Proof.
  unfold round_nearest_even. destruct l as [|[]]; try lia.
  destruct (Z.even m); lia.
Qed.

(** Rounding a non-negative mantissa keeps the sign and gives no NaN. *)
Lemma binary_round_aux_signed sx mx ex lx :
  0 ≤ mx → sf_signed sx (binary_round_aux prec emax sx mx ex lx).
Proof.
  intros Hm. unfold binary_round_aux.
  pose proof (shr_fexp_nonneg mx ex lx Hm) as H1.
  destruct (shr_fexp prec emax mx ex lx) as [mrs' e'] eqn:E1. simpl in H1.
  pose proof (round_nearest_even_bounds (shr_m mrs') (loc_of_shr_record mrs')) as Hr.
  pose proof (shr_fexp_nonneg (round_nearest_even (shr_m mrs') (loc_of_shr_record mrs')) e' loc_Exact ltac:(lia)) as H2.
  destruct (shr_fexp prec emax _ e' loc_Exact) as [mrs'' e''] eqn:E2. simpl in H2.
  destruct (shr_m mrs'') as [|p|p]; simpl; try done; try lia.
  by destruct (e'' <=? emax - prec).
Qed.

Lemma binary_round_signed sx mx ex :
  sf_signed sx (binary_round prec emax sx mx ex).
Proof.
  unfold binary_round.
  destruct (shl_align mx ex _) as [mz ez].
  by apply binary_round_aux_signed.
Qed.

Lemma sf_signed_nonneg s : sf_signed false s → sf_nonneg s.
Proof. destruct s as [[]|[]| |[] ? ?]; simpl; done. Qed.

Lemma sf_signed_number sx s : sf_signed sx s → sf_number s.
Proof. by destruct s. Qed.

Lemma SFadd_nonneg x y :
  sf_nonneg x → sf_nonneg y → sf_nonneg (SFadd prec emax x y).
Proof.
  destruct x as [sx|[]| |[] mx ex], y as [sy|[]| |[] my ey]; simpl; try done.
  - destruct sx, sy; done.
  - intros _ _. apply sf_signed_nonneg, binary_round_signed.
Qed.

Lemma SFsub_number x y :
  sf_finite x → sf_finite y → sf_number (SFsub prec emax x y).
Proof.
  destruct x as [sx|sx| |sx mx ex], y as [sy|sy| |sy my ey]; simpl; try done.
  - destruct sx, sy; done.
  - intros _ _. unfold binary_normalize.
    destruct (_ - _); try done;
      eapply sf_signed_number, binary_round_signed.
Qed.

Lemma SFabs_nonneg x : sf_number x → sf_nonneg (SFabs x).
Proof. by destruct x. Qed.

Lemma SFmul_self_nonneg x : sf_number x → sf_nonneg (SFmul prec emax x x).
Proof.
  destruct x as [sx|sx| |sx mx ex]; simpl; try done.
  - by destruct sx.
  - intros _. apply sf_signed_nonneg.
    replace (xorb sx sx) with false by (by destruct sx).
    by apply binary_round_aux_signed.
Qed.

Lemma SFsqrt_nonneg x : sf_nonneg x → sf_nonneg (SFsqrt prec emax x).
Proof.
  destruct x as [sx|[]| |[] mx ex]; simpl; try done.
  intros _.
  destruct (SFsqrt_core_binary prec emax (Z.pos mx) ex) as [[mz ez] lz] eqn:E.
  apply sf_signed_nonneg, binary_round_aux_signed.
  unfold SFsqrt_core_binary in E.
  destruct (Z.sqrtrem _) as [q r] eqn:Es.
  injection E as <- _ _.
  pose proof (Z.sqrtrem_sqrt) as Hs.
  match type of Es with Z.sqrtrem ?n = _ => specialize (Hs n); rewrite Es in Hs end.
  simpl in Hs. subst q. apply Z.sqrt_nonneg.
Qed.

Lemma SFdiv_nonneg x y :
  sf_nonneg x → sf_positive y → sf_nonneg (SFdiv prec emax x y).
Proof.
  destruct x as [sx|[]| |[] mx ex], y as [sy|sy| |[] my ey]; simpl; try done.
  intros _ _.
  destruct (SFdiv_core_binary prec emax (Z.pos mx) ex (Z.pos my) ey)
    as [[mz ez] lz] eqn:E.
  apply sf_signed_nonneg, binary_round_aux_signed.
  unfold SFdiv_core_binary in E.
  destruct (Z.div_eucl _ _) as [q r] eqn:Ed.
  injection E as <- _ _.
  match type of Ed with Z.div_eucl ?a ?b = _ =>
    assert (Ha : 0 ≤ a); [|assert (q = a / b) as -> by (unfold Z.div; by rewrite Ed)]
  end.
  - destruct (_ - _ - _) as [|p|p]; [lia | | lia].
    apply Z.shiftl_nonneg. lia.
  - apply Z.div_pos; lia.
Qed.

(** *** The conversion of a count *)

Lemma digits2_pos_lt p : Z.pos p < 2 ^ Z.pos (digits2_pos p).
Proof.
  induction p as [p IH|p IH|]; simpl digits2_pos;
    rewrite ?Pos2Z.inj_succ, ?Z.pow_succ_r by lia; lia.
Qed.

Lemma digits2_pos_ge p : 2 ^ (Z.pos (digits2_pos p) - 1) ≤ Z.pos p.
Proof.
  induction p as [p IH|p IH|]; simpl digits2_pos;
    rewrite ?Pos2Z.inj_succ; [| |simpl; lia].
  - replace (Z.succ (Z.pos (digits2_pos p)) - 1)
      with (Z.succ (Z.pos (digits2_pos p) - 1)) by lia.
    rewrite Z.pow_succ_r by lia. lia.
  - replace (Z.succ (Z.pos (digits2_pos p)) - 1)
      with (Z.succ (Z.pos (digits2_pos p) - 1)) by lia.
    rewrite Z.pow_succ_r by lia. lia.
Qed.

Lemma Zdigits2_pos m : 0 < m → 0 < Zdigits2 m.
Proof. destruct m; simpl; lia. Qed.

Lemma Zdigits2_lt m : 0 < m → m < 2 ^ Zdigits2 m.
Proof. destruct m as [|p|p]; try lia. intros _. apply digits2_pos_lt. Qed.

Lemma Zdigits2_ge m : 0 < m → 2 ^ (Zdigits2 m - 1) ≤ m.
Proof. destruct m as [|p|p]; try lia. intros _. apply digits2_pos_ge. Qed.

Lemma Zdigits2_le m k : 0 < m → m < 2 ^ k → Zdigits2 m ≤ k.
Proof.
  intros Hm Hk. pose proof (Zdigits2_ge m Hm) as Hge.
  pose proof (Zdigits2_pos m Hm).
  destruct (Z_lt_le_dec k 0) as [Hneg|Hpos].
  - rewrite Z.pow_neg_r in Hk by done. lia.
  - assert (2 ^ (Zdigits2 m - 1) < 2 ^ k) as Hlt by lia.
    apply Z.pow_lt_mono_r_iff in Hlt; lia.
Qed.

Lemma shr_1_half mrs : 0 ≤ shr_m mrs → shr_m (shr_1 mrs) = shr_m mrs / 2.
Proof.
  destruct mrs as [m r s]. simpl. intros Hm.
  rewrite <- Z.div2_div.
  destruct m as [|[p|p|]|p]; try reflexivity; lia.
Qed.

Lemma iter_shr_1 p mrs :
  0 ≤ shr_m mrs →
  shr_m (SpecFloat.iter_pos shr_1 p mrs) = shr_m mrs / 2 ^ Z.pos p.
Proof.
  revert mrs. induction p as [p IH|p IH|]; intros mrs Hm; simpl SpecFloat.iter_pos.
  - pose proof (shr_1_nonneg mrs Hm) as H1.
    pose proof (iter_pos_invariant shr_1 (λ r, 0 ≤ shr_m r) shr_1_nonneg
                  p (shr_1 mrs) H1) as H2.
    rewrite IH, IH, shr_1_half by done.
    rewrite !Z.div_div by lia. f_equal.
    rewrite Pos2Z.inj_xI, <- Z.pow_add_r, <- Z.pow_succ_r by lia. f_equal. lia.
  - pose proof (iter_pos_invariant shr_1 (λ r, 0 ≤ shr_m r) shr_1_nonneg
                  p mrs Hm) as H2.
    rewrite IH, IH by done.
    rewrite !Z.div_div by lia. f_equal.
    rewrite Pos2Z.inj_xO, <- Z.pow_add_r by lia. f_equal. lia.
  - by rewrite shr_1_half.
Qed.

(** Shifting to the format's exponent, above the smallest exponent,
    keeps a positive mantissa positive. *)
Lemma shr_fexp_positive m e l :
  0 < m → emin ≤ e →
  0 < shr_m (shr_fexp prec emax m e l).1 ∧
  Zdigits2 (shr_m (shr_fexp prec emax m e l).1) + (shr_fexp prec emax m e l).2
    ≤ Zdigits2 m + e ∧
  emin ≤ (shr_fexp prec emax m e l).2 ∧
  (shr_fexp prec emax m e l).2 ≤ Z.max e (Zdigits2 m + e - prec).
Proof.
  intros Hm He. unfold shr_fexp, shr, fexp.
  fold emin.
  pose proof (Zdigits2_ge m Hm) as Hge.
  pose proof (Zdigits2_lt m Hm) as Hlt.
  pose proof (Zdigits2_pos m Hm) as Hd.
  set (d := Zdigits2 m) in *.
  destruct (Z.max (d + e - prec) emin - e) as [|p|p] eqn:Hn; simpl.
  - rewrite shr_record_of_loc_m. fold d. lia.
  - assert (Hp : Z.pos p = d - prec) by lia.
    rewrite iter_shr_1, shr_record_of_loc_m by (rewrite shr_record_of_loc_m; lia).
    assert (Hprec : prec = 53) by done.
    assert (Hpow : 2 ^ Z.pos p * 2 ^ (d - Z.pos p) = 2 ^ d)
      by (rewrite <- Z.pow_add_r by lia; f_equal; lia).
    assert (Hle : 2 ^ Z.pos p ≤ m).
    { etransitivity; [|exact Hge]. apply Z.pow_le_mono_r; lia. }
    assert (Hpos : 0 < m / 2 ^ Z.pos p).
    { apply Z.div_str_pos. split; [apply Z.pow_pos_nonneg; lia | done]. }
    split; [done|]. split; [|lia].
    assert (m / 2 ^ Z.pos p < 2 ^ (d - Z.pos p)).
    { apply Z.div_lt_upper_bound; [apply Z.pow_pos_nonneg; lia | lia]. }
    pose proof (Zdigits2_le _ _ Hpos H). lia.
  - rewrite shr_record_of_loc_m. fold d. lia.
Qed.

(** Rounding a positive mantissa whose exponent is neither too small nor
    too large gives a finite, non-zero number. *)
Lemma binary_round_aux_finite sx m e l :
  0 < m → emin ≤ e → e ≤ 900 → Zdigits2 m + e ≤ 1000 →
  ∃ m' e', binary_round_aux prec emax sx m e l = S754_finite sx m' e'.
Proof.
  intros Hm He Hhi Hd. unfold binary_round_aux.
  destruct (shr_fexp_positive m e l Hm He) as (H1 & H2 & H3 & H4).
  destruct (shr_fexp prec emax m e l) as [mrs1 e1]. simpl in *.
  pose proof (round_nearest_even_bounds (shr_m mrs1) (loc_of_shr_record mrs1))
    as Hr.
  set (m2 := round_nearest_even (shr_m mrs1) (loc_of_shr_record mrs1)) in *.
  assert (Hm2 : 0 < m2) by lia.
  assert (Hd2 : Zdigits2 m2 ≤ Zdigits2 (shr_m mrs1) + 1).
  { apply Zdigits2_le; [done|].
    pose proof (Zdigits2_lt _ H1). pose proof (Zdigits2_pos _ H1).
    rewrite Z.pow_add_r by lia. lia. }
  destruct (shr_fexp_positive m2 e1 loc_Exact Hm2 H3) as (G1 & G2 & G3 & G4).
  destruct (shr_fexp prec emax m2 e1 loc_Exact) as [mrs3 e3]. simpl in *.
  assert (Hprec : prec = 53) by done. assert (Hemax : emax = 1024) by done.
  destruct (shr_m mrs3) as [|p|p]; try lia.
  destruct (e3 <=? emax - prec) eqn:Hle; [by eauto|].
  apply Z.leb_gt in Hle. lia.
Qed.

Lemma iter_xO_value p k : Z.pos (Pos.iter xO p k) = Z.pos p * 2 ^ Z.pos k.
Proof.
  induction k as [|k IH] using Pos.peano_ind.
  - simpl. lia.
  - rewrite Pos.iter_succ, Pos2Z.inj_xO, IH, Pos2Z.inj_succ.
    rewrite Z.pow_succ_r by lia. lia.
Qed.

Lemma binary_round_count p :
  Z.pos p < 2 ^ 63 → sf_positive (binary_round prec emax false p 0).
Proof.
  intros Hp. unfold binary_round, shl_align, fexp. fold emin.
  assert (Hprec : prec = 53) by done.
  assert (Hemin : emin = -1074) by done.
  pose proof (digits2_pos_lt p) as Hlt.
  assert (Hd : Z.pos (digits2_pos p) ≤ 63)
    by (apply (Zdigits2_le (Z.pos p)); lia).
  set (d := Z.pos (digits2_pos p)) in *.
  assert (Hfin : ∀ mz ez,
    0 < mz → emin ≤ ez → ez ≤ 900 → Zdigits2 mz + ez ≤ 1000 →
    sf_positive (binary_round_aux prec emax false mz ez loc_Exact)).
  { intros mz ez H1 H2 H3 H4.
    by destruct (binary_round_aux_finite false mz ez loc_Exact H1 H2 H3 H4)
      as (m' & e' & ->). }
  destruct (Z.max (d + 0 - prec) emin - 0) as [|k|k] eqn:Hk.
  - apply Hfin; simpl; fold d; lia.
  - apply Hfin; simpl; fold d; lia.
  - assert (Hval : Z.pos (Pos.iter xO p k) < 2 ^ (d + Z.pos k)).
    { rewrite iter_xO_value, Z.pow_add_r by lia.
      apply Z.mul_lt_mono_pos_r; [apply Z.pow_pos_nonneg; lia | done]. }
    pose proof (Zdigits2_le _ _ (Pos2Z.pos_is_pos _) Hval) as Hdig.
    apply Hfin; try lia.
Qed.

Lemma of_uint63_positive (n : Z) :
  0 < n < 2 ^ 63 → sf_positive (Prim2SF (of_uint63 (Uint63.of_Z n))).
Proof.
  intros Hn. rewrite of_uint63_spec, Uint63.of_Z_spec.
  rewrite Z.mod_small by (change Uint63.wB with (2 ^ 63); lia).
  destruct n as [|p|p]; try lia. simpl. apply binary_round_count. lia.
Qed.

(** *** The square root

    [SFsqrt] takes the integer square root of the mantissa, scaled so that
    it has at least 53 bits, and rounds it. *)








(** *** From the specification to the primitive operations *)

Lemma leb_zero_nonneg (x : float) :
  sf_nonneg (Prim2SF x) → PrimFloat.leb 0 x = true.
Proof.
  intros Hx. rewrite FloatAxioms.leb_spec.
  change (Prim2SF 0) with (S754_zero false).
  by destruct (Prim2SF x) as [?|[]| |[] ? ?].
Qed.

Lemma isfinite_sf_finite (x : float) :
  isfinite x = true → sf_finite (Prim2SF x).
Proof.
  unfold isfinite. simpl. unfold PrimFloat.is_nan, PrimFloat.is_infinity.
  rewrite !FloatAxioms.eqb_spec, FloatAxioms.abs_spec.
  change (Prim2SF infinity) with (S754_infinity false).
  by destruct (Prim2SF x) as [?|[]| |[] ? ?].
Qed.

Lemma add_nonneg (x y : float) :
  sf_nonneg (Prim2SF x) → sf_nonneg (Prim2SF y) →
  sf_nonneg (Prim2SF (nadd x y)).
Proof.
  intros Hx Hy. change (nadd x y) with (PrimFloat.add x y).
  rewrite FloatAxioms.add_spec. by apply SFadd_nonneg.
Qed.

Lemma abs_diff_nonneg (x y : float) :
  isfinite x = true → isfinite y = true →
  sf_nonneg (Prim2SF (nabs (nsub x y))).
Proof.
  intros Hx%isfinite_sf_finite Hy%isfinite_sf_finite.
  change (nabs (nsub x y)) with (PrimFloat.abs (PrimFloat.sub x y)).
  rewrite FloatAxioms.abs_spec, FloatAxioms.sub_spec. by apply SFabs_nonneg, SFsub_number.
Qed.

Lemma sq_diff_nonneg (x y : float) :
  isfinite x = true → isfinite y = true →
  sf_nonneg (Prim2SF (let d := nsub x y in nmul d d)).
Proof.
  intros Hx%isfinite_sf_finite Hy%isfinite_sf_finite.
  change (let d := nsub x y in nmul d d)
    with (PrimFloat.mul (PrimFloat.sub x y) (PrimFloat.sub x y)).
  rewrite FloatAxioms.mul_spec, FloatAxioms.sub_spec. by apply SFmul_self_nonneg, SFsub_number.
Qed.

Lemma sqrt_nonneg (x : float) :
  sf_nonneg (Prim2SF x) → sf_nonneg (Prim2SF (nsqrt x)).
Proof.
  intros Hx. change (nsqrt x) with (PrimFloat.sqrt x).
  rewrite FloatAxioms.sqrt_spec. by apply SFsqrt_nonneg.
Qed.

Lemma of_count_positive (n : nat) :
  0 < Z.of_nat n < 2 ^ 63 → sf_positive (Prim2SF (of_count n)).
Proof. apply of_uint63_positive. Qed.

Lemma zip_with_nonneg (f : float → float → float) (t p : list float) :
  (∀ x y, isfinite x = true → isfinite y = true → sf_nonneg (Prim2SF (f x y))) →
  Forall (λ x, isfinite x = true) t → Forall (λ x, isfinite x = true) p →
  Forall (λ x, sf_nonneg (Prim2SF x)) (zip_with f t p).
Proof.
  intros Hf Ht. revert p. induction Ht as [|x t Hx _ IH]; intros p Hp; [done|].
  destruct Hp as [|y p Hy Hp]; simpl; [done|].
  constructor; [by apply Hf | by apply IH].
Qed.

(** The mean of non-negative values, fewer than 2^63 of them, is
    non-negative. *)
Lemma average_nonneg (l : list float) :
  0 < Z.of_nat (length l) < 2 ^ 63 →
  Forall (λ x, sf_nonneg (Prim2SF x)) l →
  sf_nonneg (Prim2SF (average l)).
Proof.
  intros Hn Hl. unfold average.
  change (ndiv ?a ?b) with (PrimFloat.div a b). rewrite FloatAxioms.div_spec.
  apply SFdiv_nonneg; [|by apply of_count_positive].
  by apply (np_sum_closed (λ x, sf_nonneg (Prim2SF x)));
    [done | apply add_nonneg | done].
Qed.

(** The report in binary64: the three fields as computed, none of them
    negative or NaN. *)
Lemma metrics_binary64 (actual predicted : list float) m :
  Z.of_nat (length actual) < 2 ^ 63 →
  calculate_performance_metrics actual predicted = Ok m →
  MAE m = average (zip_with (λ a p, PrimFloat.abs (PrimFloat.sub p a))
                     actual predicted) ∧
  MSE m = average (zip_with (λ a p, PrimFloat.mul (PrimFloat.sub a p)
                                      (PrimFloat.sub a p))
                     actual predicted) ∧
  RMSE m = PrimFloat.sqrt (MSE m) ∧
  sf_nonneg (Prim2SF (MAE m)) ∧
  sf_nonneg (Prim2SF (MSE m)) ∧
  sf_nonneg (Prim2SF (RMSE m)).
Proof.
  intros Hbound Hm.
  assert (Hok : ∃ m, calculate_performance_metrics actual predicted = Ok m)
    by eauto.
  apply calculate_performance_metrics_Ok in Hok.
  pose proof (proj1 (check_reg_targets_Ok _ _) Hok) as (Hlen & Hne & Ha & Hp).
  revert Hm.
  unfold calculate_performance_metrics, mean_absolute_error, mean_squared_error.
  rewrite Hok. cbv [mbind result_bind]. cbv beta iota. intros [= <-].
  cbn [MAE MSE RMSE].
  assert (Hcount : ∀ f : float → float → float,
    0 < Z.of_nat (length (zip_with f actual predicted)) < 2 ^ 63).
  { intros f. rewrite length_zip_with, <- Hlen, Nat.min_id.
    destruct actual; [done | simpl length in *; lia]. }
  assert (Hmae : sf_nonneg (Prim2SF (average
            (zip_with (λ ti pi, nabs (nsub pi ti)) actual predicted)))).
  { apply average_nonneg; [apply Hcount|].
    apply zip_with_nonneg; [|done|done].
    intros x y Hx Hy. by apply abs_diff_nonneg. }
  assert (Hmse : sf_nonneg (Prim2SF (average
            (zip_with (λ ti pi, let d := nsub ti pi in nmul d d)
               actual predicted)))).
  { apply average_nonneg; [apply Hcount|].
    apply zip_with_nonneg; [|done|done].
    intros x y Hx Hy. by apply sq_diff_nonneg. }
  split; [reflexivity|]. split; [reflexivity|]. split; [reflexivity|].
  split; [done|]. split; [done|]. by apply sqrt_nonneg.
Qed.

Lemma metrics_nonneg_binary64 (actual predicted : list float) m :
  Z.of_nat (length actual) < 2 ^ 63 →
  calculate_performance_metrics actual predicted = Ok m →
  PrimFloat.leb 0 (MAE m) = true ∧
  PrimFloat.leb 0 (MSE m) = true ∧
  PrimFloat.leb 0 (RMSE m) = true.
Proof.
  intros Hbound Hm.
  destruct (metrics_binary64 actual predicted m Hbound Hm)
    as (_ & _ & _ & H1 & H2 & H3).
  split; [by apply leb_zero_nonneg|].
  split; by apply leb_zero_nonneg.
Qed.
End Binary64.

(** *** The square of RMSE against MSE *)

Section Binary64Values.
Local Open Scope R_scope.






End Binary64Values.


(** C10 (as amended): the three metrics of every report are
    non-negative in the binary64 arithmetic of the code (for sequences of
    fewer than 2^63 values): each is at least zero, possibly infinite, never
    NaN.  MAE <= RMSE holds in exact real arithmetic, where the report of
    sequences of equal, non-zero length satisfies 0 <= MAE <= RMSE; in
    binary64 it can fail, by rounding or by underflow. *)
Theorem C10_metrics_nonnegative_and_ordered_when_exact :
  (∀ (actual predicted : list float) (m : metrics float),
     (Z.of_nat (length actual) < 2 ^ 63)%Z →
     calculate_performance_metrics actual predicted = Ok m →
     PrimFloat.leb 0 (MAE m) = true ∧
     PrimFloat.leb 0 (MSE m) = true ∧
     PrimFloat.leb 0 (RMSE m) = true) ∧
  (∀ (actual predicted : list R),
     length actual = length predicted → actual ≠ [] →
     ∃ m, calculate_performance_metrics actual predicted = Ok m ∧
          (0 <= MAE m)%R ∧ (MAE m <= RMSE m)%R ∧
          (0 <= MSE m)%R ∧ (0 <= RMSE m)%R).
Proof.
  split.
  - apply metrics_nonneg_binary64.
  - apply mae_le_rmse_in_exact_arithmetic.
Qed.

(** ** The pipeline on explicit inputs *)

Section Explicit.
Import Sample.

Local Ltac by_decide := apply (bool_decide_unpack _); vm_compute; exact I.

Lemma C3_forecast_covers_witness :
  train (fetch ascending_rows) = Ok ascending_model ∧
  ∃ forecast rng',
    Sample.forecast ascending_model 3 0 = Ok (forecast, rng') ∧
    covers_history_and_horizon (fetch ascending_rows) 3 forecast.
Proof.
  split; [vm_compute; reflexivity|].
  apply (C3_forecast_covers_history_and_horizon
           naive_fit naive_yhat naive_uncertainty naive_advance
           (fetch ascending_rows) ascending_model 3 0).
  vm_compute; reflexivity.
Defined.

Lemma C1_positional_pairs_witness :
  StronglySorted Z.lt (ds <$> fetch ascending_rows) ∧
  timestamps_match (scored_pairs (fetch ascending_rows) ascending_forecast) ∧
  (scored_pairs (fetch ascending_rows) ascending_forecast).*1
    = fetch ascending_rows.
Proof.
  assert (Hasc : StronglySorted Z.lt (ds <$> fetch ascending_rows)) by by_decide.
  assert (Htrain : train (fetch ascending_rows) = Ok ascending_model)
    by (vm_compute; reflexivity).
  assert (Hrun : Sample.forecast ascending_model 3 0 = Ok (ascending_forecast, 1))
    by (vm_compute; reflexivity).
  split; [exact Hasc|].
  destruct (C1_positional_pairs_match_on_ascending_dates
              naive_fit naive_yhat naive_uncertainty naive_advance
              (fetch ascending_rows) ascending_model 3 0 ascending_forecast 1
              Hasc Htrain Hrun) as (Hmatch & Hall & _).
  split; [exact Hmatch | exact Hall].
Defined.

(** C1, counterexample: a download with a repeated date.  The run
    succeeds and scores the actual price of day 2 against the prediction for
    day 3, a day that has no actual price at all. *)
Lemma C1_counterexample_repeated_date :
  ∃ forecast m a p,
    run duplicate_rows "1 year" true 0 = Ok (Some (forecast, m)) ∧
    evaluate (fetch duplicate_rows) forecast = Ok m ∧
    (a, p) ∈ scored_pairs (fetch duplicate_rows) forecast ∧
    ds a = 2%Z ∧ f_ds p = 3%Z ∧
    f_ds p ∉ ds <$> fetch duplicate_rows.
Proof.
  eexists _, _,
    {| ds := 2; y := 12%float |},
    {| f_ds := 3; yhat := 12%float;
       yhat_lower := 11%float; yhat_upper := 13%float |}.
  split; [vm_compute; reflexivity|].
  split; [vm_compute; reflexivity|].
  split; [apply (list_elem_of_lookup_2 _ 2); vm_compute; reflexivity|].
  split; [done|]. split; [done|]. by_decide.
Qed.

Lemma C2_short_frame_witness :
  length (filter (λ r, negb (isnan (y r))) (fetch one_row)) < 2 ∧
  length (fetch one_row) = length (download one_row "RACE" 0 10) ∧
  train (fetch one_row) = Raise ValueError.
Proof.
  assert (Hshort : length (filter (λ r, negb (isnan (y r))) (fetch one_row)) < 2)
    by (vm_compute; lia).
  split; [exact Hshort|].
  exact (C2_short_frame_returned_then_refused_by_fit
           (download one_row) naive_fit "RACE" 0 10 Hshort).
Defined.

(** C2, counterexample: a download of exactly one row.  The
    preparation step returns the one-row frame; nothing is raised. *)
Lemma C2_counterexample_one_row :
  length one_row = 1 ∧
  fetch one_row = [{| ds := 1; y := 100%float |}].
Proof. split; reflexivity. Qed.

Lemma C6_fetch_keeps_rows_witness :
  StronglySorted Z.lt (Date <$> download ascending_rows "RACE" 0 10) ∧
  ds <$> fetch ascending_rows = [1; 2; 5]%Z ∧
  StronglySorted Z.lt (ds <$> fetch ascending_rows) ∧
  NoDup (ds <$> fetch ascending_rows).
Proof.
  assert (Hasc : StronglySorted Z.lt (Date <$> download ascending_rows "RACE" 0 10))
    by by_decide.
  split; [exact Hasc|].
  destruct (C6_fetch_keeps_rows_and_order (download ascending_rows) "RACE" 0 10 Hasc)
    as (Hds & _ & Hsorted & Hnodup).
  split; [exact Hds | split; [exact Hsorted | exact Hnodup]].
Defined.

(** C6, counterexample: a download out of order, with a repeated date
    and a missing price.  All three rows come back, in the downloaded
    order. *)
Lemma C6_counterexample_messy_download :
  fetch messy_rows
    = [{| ds := 2; y := 10%float |}; {| ds := 1; y := PrimFloat.nan |};
       {| ds := 2; y := 12%float |}] ∧
  isnan PrimFloat.nan = true ∧
  ¬ StronglySorted Z.lt (ds <$> fetch messy_rows) ∧
  ¬ NoDup (ds <$> fetch messy_rows).
Proof.
  split; [reflexivity|]. split; [reflexivity|]. split; by_decide.
Qed.

(** C5, counterexample: one actual row on day 1, one forecast row on
    day 2.  No date is shared, and a report is returned. *)
Lemma C5_counterexample_disjoint_dates :
  (∀ a p, a ∈ actual_day1 → p ∈ forecast_day2 → ds a ≠ f_ds p) ∧
  evaluate actual_day1 forecast_day2
    = Ok {| MAE := 2%float; MSE := 4%float; RMSE := 2%float |}.
Proof.
  split; [|vm_compute; reflexivity].
  intros a p Ha Hp.
  apply list_elem_of_singleton in Ha as ->.
  apply list_elem_of_singleton in Hp as ->. done.
Qed.

Lemma C9_horizon_witness :
  "1 year" ∈ horizon_options ∧
  ∃ days, forecast_days "1 year" = Ok days ∧ days ∈ listed_horizons ∧ days ≠ 0.
Proof.
  assert (Hsel : "1 year" ∈ horizon_options) by by_decide.
  split; [exact Hsel|].
  destruct (C9_horizon_is_one_of_four
              (download ascending_rows)
              naive_fit naive_yhat naive_uncertainty naive_advance
              "RACE" 0 10 "1 year" true 0 Hsel)
    as (days & Hdays & Hin & Hnz & _).
  exists days. split; [exact Hdays | split; [exact Hin | exact Hnz]].
Defined.


(** In binary64 the product RMSE * RMSE need not be MSE: for the actual
    values 3, 5 and the predictions 1, 9 the report has MSE = 10, and the
    rounded root of 10 times itself is the next binary64 value above 10. *)
Lemma rmse_squared_is_not_mse_in_binary64 :
  calculate_performance_metrics [3; 5]%float [1; 9]%float
    = Ok {| MAE := 3%float; MSE := 10%float;
            RMSE := 0x1.94c583ada5b53p+1%float |} ∧
  PrimFloat.mul 0x1.94c583ada5b53p+1 0x1.94c583ada5b53p+1
    = 0x1.4000000000001p+3%float ∧
  PrimFloat.eqb 0x1.4000000000001p+3 10 = false.
Proof. repeat split; vm_compute; reflexivity. Qed.

Lemma C10_metrics_witness :
  (PrimFloat.leb 0 0x1.999999999999bp-4 = true ∧
   PrimFloat.leb 0 0x1.47ae147ae147cp-7 = true ∧
   PrimFloat.leb 0 0x1.999999999999ap-4 = true) ∧
  ∃ m, calculate_performance_metrics [3; 5]%R [1; 9]%R = Ok m ∧
       (0 <= MAE m)%R ∧ (MAE m <= RMSE m)%R ∧
       (0 <= MSE m)%R ∧ (0 <= RMSE m)%R.
Proof.
  destruct C10_metrics_nonnegative_and_ordered_when_exact as [Hfloat Hexact].
  split.
  - apply (Hfloat Sample.tenths [0; 0; 0]%float
             {| MAE := 0x1.999999999999bp-4%float;
                MSE := 0x1.47ae147ae147cp-7%float;
                RMSE := 0x1.999999999999ap-4%float |}).
    + vm_compute. reflexivity.
    + vm_compute. reflexivity.
  - apply (Hexact [3; 5]%R [1; 9]%R); [reflexivity | discriminate].
Defined.

(** In binary64 MAE can exceed RMSE by rounding alone: against three
    zeros, three values of 0.1 (the binary64 value 0x1.999999999999ap-4)
    have the mean absolute error 0x1.999999999999bp-4, one unit in the last
    place above 0.1, while the root of the mean squared error is 0.1. *)
Lemma mae_exceeds_rmse_by_rounding :
  calculate_performance_metrics Sample.tenths [0; 0; 0]%float
    = Ok {| MAE := 0x1.999999999999bp-4%float;
            MSE := 0x1.47ae147ae147cp-7%float;
            RMSE := 0x1.999999999999ap-4%float |} ∧
  PrimFloat.ltb 0x1.999999999999ap-4 0x1.999999999999bp-4 = true.
Proof. split; vm_compute; reflexivity. Qed.

(** C10, counterexample: in binary64 the square of 2^-600 underflows
    to zero.  With the actual value 2^-600 and the prediction 0 the report
    has MAE = 2^-600 and MSE = RMSE = 0, so MAE exceeds RMSE. *)
Lemma C10_counterexample_underflow :
  calculate_performance_metrics [0x1p-600%float] [0%float]
    = Ok {| MAE := 0x1p-600%float; MSE := 0%float; RMSE := 0%float |} ∧
  PrimFloat.leb 0x1p-600%float 0%float = false ∧
  PrimFloat.ltb 0%float 0x1p-600%float = true.
Proof. repeat split; vm_compute; reflexivity. Qed.
End Explicit.


(** * Further properties of the pipeline *)

Lemma bind_Ok {T U : Type} (v : T) (k : T → result U) : Ok v ≫= k = k v.
Proof. done. Qed.

Lemma bind_Raise {T U : Type} (e : exn) (k : T → result U) :
  Raise e ≫= k = Raise e.
Proof. done. Qed.

(** ** The horizon lookup and the fit *)

Lemma forecast_days_unlisted sel :
  sel ∉ horizon_options → forecast_days sel = Raise KeyError.
Proof.
  unfold horizon_options. rewrite !not_elem_of_cons.
  intros (H1 & H2 & H3 & H5 & _).
  unfold forecast_days, horizon_mapping.
  rewrite !lookup_insert_ne by done. by rewrite lookup_singleton_ne.
Qed.

Lemma forecast_days_listed sel :
  sel ∈ horizon_options →
  ∃ days, forecast_days sel = Ok days ∧ days ∈ listed_horizons.
Proof.
  unfold horizon_options. rewrite !elem_of_cons, elem_of_nil.
  intros [-> | [-> | [-> | [-> | []]]]];
    (eexists; split; [vm_compute; reflexivity|]);
    unfold listed_horizons; rewrite !elem_of_cons; auto 10.
Qed.

Section Fit.
Context {A : Type} `{Numeric A}.
Context {Params : Type}.
Variable stan_fit : list (obs A) → Params.

Lemma existsb_false_Forall {T : Type} (f : T → bool) (l : list T) :
  existsb f l = false ↔ Forall (λ x, f x = false) l.
Proof.
  induction l as [|x l IH]; simpl.
  - split; [constructor | done].
  - rewrite orb_false_iff, Forall_cons, IH. done.
Qed.

Lemma foldl_min_spec (l : list Z) x :
  foldl Z.min x l ∈ x :: l ∧ Forall (λ z, (foldl Z.min x l ≤ z)%Z) (x :: l).
Proof.
  revert x. induction l as [|a l IH]; intros x; simpl.
  - split; [apply elem_of_cons; by left | by repeat constructor].
  - destruct (IH (Z.min x a)) as [Hin Hall]. split.
    + apply elem_of_cons in Hin as [Heq | Hin].
      * rewrite Heq. destruct (Z.min_spec x a) as [[_ ->] | [_ ->]];
          rewrite !elem_of_cons; auto.
      * rewrite !elem_of_cons; auto.
    + apply Forall_cons in Hall as [Hm Hall].
      repeat constructor; [lia | lia | done].
Qed.

(** A span of zero means that all dates are the same. *)
Lemma t_scale_zero (l : list Z) x z :
  t_scale l = 0%Z → x ∈ l → z ∈ l → x = z.
Proof.
  destruct l as [|a l]; [by intros _ ?%elem_of_nil|].
  unfold t_scale. simpl. intros Hspan Hx Hz.
  destruct (foldl_max_spec l a) as [_ Hmax].
  destruct (foldl_min_spec l a) as [_ Hmin].
  rewrite Forall_forall in Hmax, Hmin.
  pose proof (Hmax _ Hx). pose proof (Hmax _ Hz).
  pose proof (Hmin _ Hx). pose proof (Hmin _ Hz). simpl in *. lia.
Qed.

Lemma t_scale_same (l : list Z) :
  (∀ x z, x ∈ l → z ∈ l → x = z) → t_scale l = 0%Z.
Proof.
  destruct l as [|a l]; [done|]. intros Hsame.
  unfold t_scale. simpl.
  destruct (foldl_max_spec l a) as [Hmax _].
  destruct (foldl_min_spec l a) as [Hmin _].
  rewrite (Hsame _ _ Hmax Hmin). lia.
Qed.

Lemma train_cases df :
  (∃ model, train_prophet_model stan_fit df = Ok model) ∨
  train_prophet_model stan_fit df = Raise ValueError ∨
  train_prophet_model stan_fit df = Raise RuntimeError.
Proof.
  unfold train_prophet_model.
  destruct (length _ <? 2); [by auto|].
  destruct (existsb _ _); [by auto|].
  destruct (_ && _); [by auto | left; eauto].
Qed.

(** X2: the outcomes of [train_prophet_model].  It raises [ValueError]
    exactly when fewer than two rows have a price that is not NaN or one of
    these prices is infinite.  It raises [RuntimeError] only when, besides,
    all rows with a price share one date and their prices are not all
    equal.  In every other case it returns a model, which holds the dates
    of all rows of the frame, those with a NaN price included, each once
    and in strictly ascending order, and parameters fitted on the rows with
    a price only. *)
Theorem X2_fit_outcome (df : list (obs A)) :
  match train_prophet_model stan_fit df with
  | Ok model =>
      2 ≤ length (filter (λ r, negb (isnan (y r))) df) ∧
      Forall (λ r, isinf (y r) = false)
             (filter (λ r, negb (isnan (y r))) df) ∧
      StronglySorted Z.lt (history_dates model) ∧
      (∀ d, d ∈ history_dates model ↔ d ∈ ds <$> df) ∧
      params model = stan_fit (filter (λ r, negb (isnan (y r))) df)
  | Raise e =>
      (e = ValueError ∧
       (length (filter (λ r, negb (isnan (y r))) df) < 2 ∨
        Exists (λ r, isinf (y r) = true)
               (filter (λ r, negb (isnan (y r))) df))) ∨
      (e = RuntimeError ∧
       2 ≤ length (filter (λ r, negb (isnan (y r))) df) ∧
       Forall (λ r, isinf (y r) = false)
              (filter (λ r, negb (isnan (y r))) df) ∧
       (∀ r1 r2, r1 ∈ filter (λ r, negb (isnan (y r))) df →
                 r2 ∈ filter (λ r, negb (isnan (y r))) df →
                 ds r1 = ds r2) ∧
       constant (y <$> filter (λ r, negb (isnan (y r))) df) = false)
  end.
Proof.
  unfold train_prophet_model.
  destruct (length _ <? 2) eqn:Hlen.
  - apply Nat.ltb_lt in Hlen. auto.
  - apply Nat.ltb_ge in Hlen.
    destruct (existsb _ _) eqn:Hinf.
    + left. split; [done|]. right.
      apply existsb_exists in Hinf as (r & Hr & Hy).
      apply Exists_exists. exists r. split; [by apply list_elem_of_In | done].
    + apply existsb_false_Forall in Hinf.
      destruct (_ && _) eqn:Hdegenerate.
      * right. apply andb_true_iff in Hdegenerate as [Hspan Hconst].
        apply Z.eqb_eq in Hspan. apply negb_true_iff in Hconst.
        repeat split; try done.
        intros r1 r2 Hr1 Hr2.
        apply (t_scale_zero _ _ _ Hspan); by apply list_elem_of_fmap_2.
      * simpl. split; [done|]. split; [done|].
        split; [apply history_dates_ascending|].
        split; [apply elem_of_history_dates | done].
Qed.
End Fit.

(** ** The forecast of any model *)

Section AnyModel.
Context {A : Type} `{Numeric A}.
Context {Params RandomState : Type}.
Variable predict_yhat : Params → Z → A.
Variable predict_uncertainty :
  Params → RandomState → list Z → nat → A * A.
Variable advance : RandomState → RandomState.

Local Abbreviation forecast_of :=
  (make_forecast predict_yhat predict_uncertainty advance).
Local Abbreviation predict_of :=
  (predict predict_yhat predict_uncertainty advance).

(** Sorting leaves a sorted tail of later dates in place. *)
Lemma sort_values_app_above (l tail : list Z) :
  (∀ x z, x ∈ l → z ∈ tail → (x < z)%Z) →
  StronglySorted Z.lt tail →
  sort_values (l ++ tail) = sort_values l ++ tail.
Proof.
  intros Habove Htail. unfold sort_values.
  apply (StronglySorted_unique Z.le).
  - apply StronglySorted_merge_sort; apply _.
  - apply StronglySorted_app_2.
    + intros x z Hx Hz. rewrite merge_sort_Permutation in Hx.
      specialize (Habove x z Hx Hz). lia.
    + apply StronglySorted_merge_sort; apply _.
    + by apply StronglySorted_lt_le.
  - by rewrite !merge_sort_Permutation.
Qed.


Lemma horizon_dates_above_max (l : list Z) last_date periods x z :
  date_max l = Some last_date →
  x ∈ l → z ∈ horizon_dates last_date periods → (x < z)%Z.
Proof.
  intros [_ Hall]%date_max_spec Hx Hz.
  rewrite Forall_forall in Hall. specialize (Hall _ Hx).
  pose proof (horizon_dates_after last_date periods) as Hafter.
  rewrite Forall_forall in Hafter. specialize (Hafter _ Hz).
  simpl in *. lia.
Qed.

Lemma make_forecast_fitted model periods rng last_date :
  date_max (history_dates model) = Some last_date →
  forecast_of model periods rng
  = Ok ((predict_of model
           (history_dates model ++ horizon_dates last_date periods) rng).1,
        advance rng).
Proof.
  intros Hlast. unfold make_forecast, make_future_dataframe.
  rewrite Hlast, bind_Ok, future_dates_eq.
  by rewrite (surjective_pairing (predict_of _ _ _)), predict_state.
Qed.

Lemma length_sort_values (l : list Z) : length (sort_values l) = length l.
Proof. unfold sort_values. by rewrite merge_sort_Permutation. Qed.

(** The dates of the forecast of a model with history. *)
Lemma forecast_dates_fitted model periods rng last_date :
  date_max (history_dates model) = Some last_date →
  f_ds <$> (predict_of model
              (history_dates model ++ horizon_dates last_date periods) rng).1
  = sort_values (history_dates model) ++ horizon_dates last_date periods.
Proof.
  intros Hlast. rewrite predict_dates.
  apply sort_values_app_above; [|apply horizon_dates_ascending].
  intros x z. by apply horizon_dates_above_max.
Qed.

(** X3: [make_forecast] fails only on a model without history dates,
    with Prophet's 'Model has not been fit'.  On any other model it returns,
    for every number of periods, one row per history date, in ascending
    order of date, followed by one row for each of the [periods] days after
    the latest history date; the point estimate of each row is the
    model's estimate for the date of that row; the random state is advanced
    once. *)
Theorem X3_make_forecast_outcome (model : @Prophet Params) periods rng :
  match date_max (history_dates model) with
  | None =>
      history_dates model = [] ∧
      forecast_of model periods rng = Raise NotFitted
  | Some last_date =>
      ∃ forecast,
        forecast_of model periods rng = Ok (forecast, advance rng) ∧
        f_ds <$> forecast
          = sort_values (history_dates model)
            ++ horizon_dates last_date periods ∧
        length forecast = length (history_dates model) + periods ∧
        yhat <$> forecast = predict_yhat (params model) <$> (f_ds <$> forecast)
  end.
Proof.
  destruct (date_max (history_dates model)) as [last_date|] eqn:Hlast.
  - eexists. split; [by apply make_forecast_fitted|].
    pose proof (forecast_dates_fitted model periods rng last_date Hlast)
      as Hdates.
    split; [done|]. split.
    + rewrite <- (length_fmap f_ds), Hdates, length_app.
      by rewrite length_sort_values, length_horizon_dates.
    + by rewrite predict_yhats, predict_dates.
  - unfold make_forecast, make_future_dataframe. rewrite Hlast.
    destruct (history_dates model); [done | discriminate].
Qed.

End AnyModel.

(** ** Whole runs *)

Section Runs.
Context {A : Type} `{Numeric A}.
Variable yf_download : string → Z → Z → list (quote A).
Context {Params RandomState : Type}.
Variable stan_fit : list (obs A) → Params.
Variable predict_yhat : Params → Z → A.
Variable predict_uncertainty :
  Params → RandomState → list Z → nat → A * A.
Variable advance : RandomState → RandomState.

Local Abbreviation fetch := (fetch_stock_data yf_download).
Local Abbreviation train := (train_prophet_model stan_fit).
Local Abbreviation forecast_of :=
  (make_forecast predict_yhat predict_uncertainty advance).
Local Abbreviation on_button :=
  (forecast_on_button yf_download stan_fit predict_yhat predict_uncertainty
     advance).
Local Abbreviation run :=
  (main yf_download stan_fit predict_yhat predict_uncertainty advance).

Lemma isfinite_true (x : A) :
  isfinite x = true ↔ isnan x = false ∧ isinf x = false.
Proof. unfold isfinite. rewrite negb_true_iff. apply orb_false_iff. Qed.

Lemma evaluate_cases (df : list (obs A)) (forecast : list (fc A)) :
  (∃ m, evaluate df forecast = Ok m) ∨ evaluate df forecast = Raise ValueError.
Proof. apply calculate_performance_metrics_cases. Qed.

Lemma evaluate_Ok_inv (df : list (obs A)) (forecast : list (fc A)) m :
  evaluate df forecast = Ok m →
  df ≠ [] ∧ length df ≤ length forecast ∧
  Forall (λ r, isfinite (y r) = true) df ∧
  Forall (λ p, isfinite (yhat p) = true) (take (length df) forecast).
Proof.
  intros Hm. unfold evaluate in Hm.
  assert (Hok : ∃ m, calculate_performance_metrics (y <$> df)
                       (take (length df) (yhat <$> forecast)) = Ok m) by eauto.
  apply calculate_performance_metrics_Ok, check_reg_targets_Ok in Hok
    as (Hlen & Hne & Hy & Hyhat).
  rewrite length_fmap, length_take, length_fmap in Hlen.
  rewrite <- fmap_take in Hyhat.
  rewrite Forall_fmap in Hy. rewrite Forall_fmap in Hyhat.
  repeat split; try done.
  - intros ->. done.
  - lia.
Qed.

(** The trained model's forecast, column by column. *)
Lemma make_forecast_columns df model periods rng :
  train df = Ok model →
  ∃ last_date forecast,
    date_max (ds <$> df) = Some last_date ∧
    forecast_of model periods rng = Ok (forecast, advance rng) ∧
    f_ds <$> forecast
      = sort_values (unique (ds <$> df)) ++ horizon_dates last_date periods ∧
    yhat <$> forecast = predict_yhat (params model) <$> (f_ds <$> forecast).
Proof.
  intros Htrain.
  destruct (make_forecast_trained stan_fit predict_yhat predict_uncertainty
              advance df model periods rng Htrain)
    as (last_date & forecast & Hlast & Hrun & Hdates).
  exists last_date, forecast. repeat split; try done.
  unfold make_forecast in Hrun.
  destruct (make_future_dataframe model periods) as [future|e]; [|done].
  rewrite bind_Ok in Hrun.
  assert (forecast
          = (predict predict_yhat predict_uncertainty advance
               model future rng).1) as -> by (by injection Hrun as <-).
  by rewrite predict_yhats, predict_dates.
Qed.

(** What the block under the button does, step by step. *)
Lemma on_button_cases ticker s e days rng :
  (∃ model last_date forecast m,
      train (fetch ticker s e) = Ok model ∧
      date_max (ds <$> fetch ticker s e) = Some last_date ∧
      forecast_of model days rng = Ok (forecast, advance rng) ∧
      f_ds <$> forecast
        = sort_values (unique (ds <$> fetch ticker s e))
          ++ horizon_dates last_date days ∧
      yhat <$> forecast = predict_yhat (params model) <$> (f_ds <$> forecast) ∧
      evaluate (fetch ticker s e) forecast = Ok m ∧
      on_button ticker s e days rng = Ok (forecast, m))
  ∨ on_button ticker s e days rng = Raise ValueError
  ∨ on_button ticker s e days rng = Raise RuntimeError.
Proof.
  unfold forecast_on_button.
  destruct (train_cases stan_fit (fetch ticker s e))
    as [[model Htrain] | [Hfail | Hfail]].
  - destruct (make_forecast_columns _ model days rng Htrain)
      as (last_date & forecast & Hlast & Hrun & Hdates & Hyhat).
    rewrite Htrain, bind_Ok, Hrun, bind_Ok.
    destruct (evaluate_cases (fetch ticker s e) forecast) as [[m Hm] | Hm].
    + left. exists model, last_date, forecast, m.
      rewrite Hm, bind_Ok. done.
    + right. left. by rewrite Hm.
  - right. left. by rewrite Hfail.
  - right. right. by rewrite Hfail.
Qed.

Lemma on_button_Ok_inv ticker s e days rng forecast m :
  on_button ticker s e days rng = Ok (forecast, m) →
  ∃ model last_date,
    train (fetch ticker s e) = Ok model ∧
    date_max (ds <$> fetch ticker s e) = Some last_date ∧
    forecast_of model days rng = Ok (forecast, advance rng) ∧
    f_ds <$> forecast
      = sort_values (unique (ds <$> fetch ticker s e))
        ++ horizon_dates last_date days ∧
    yhat <$> forecast = predict_yhat (params model) <$> (f_ds <$> forecast) ∧
    evaluate (fetch ticker s e) forecast = Ok m.
Proof.
  intros Hrun.
  destruct (on_button_cases ticker s e days rng)
    as [(model & last_date & forecast' & m' & H1 & H2 & H3 & H4 & H5 & H6 & H7)
       | [Hfail | Hfail]].
  - rewrite Hrun in H7. injection H7 as <- <-. by exists model, last_date.
  - rewrite Hrun in Hfail. done.
  - rewrite Hrun in Hfail. done.
Qed.

(** X5: the outcomes of a run.  [main] raises [KeyError] only for a
    horizon that is not an option, and then whether or not the button is
    pressed; with the button not pressed it returns nothing; with the button
    pressed it returns a forecast with its metrics, or raises [ValueError]
    (from the fit or from the metrics) or [RuntimeError] (from the fit).
    'Model has not been fit' never reaches the user. *)
Theorem X5_outcomes_of_a_run
    ticker_symbol start_date end_date forecast_horizon button rng :
  match run ticker_symbol start_date end_date forecast_horizon button rng with
  | Raise KeyError => forecast_horizon ∉ horizon_options
  | Raise ValueError => forecast_horizon ∈ horizon_options ∧ button = true
  | Raise RuntimeError => forecast_horizon ∈ horizon_options ∧ button = true
  | Raise NotFitted => False
  | Ok None => forecast_horizon ∈ horizon_options ∧ button = false
  | Ok (Some _) => forecast_horizon ∈ horizon_options ∧ button = true
  end.
Proof.
  unfold main.
  destruct (decide (forecast_horizon ∈ horizon_options)) as [Hin | Hout].
  - destruct (forecast_days_listed _ Hin) as (days & -> & _).
    rewrite bind_Ok. destruct button; [|done].
    destruct (on_button_cases ticker_symbol start_date end_date days rng)
      as [(? & ? & forecast & m & _ & _ & _ & _ & _ & _ & ->) | [-> | ->]];
      done.
  - by rewrite (forecast_days_unlisted _ Hout).
Qed.

(** X1: for a horizon that is not one of the options of the select box
    the lookup in [horizon_mapping] raises [KeyError]; and since the lookup
    precedes the test of the button, [main] then raises [KeyError] whether
    or not the button is pressed. *)
Theorem X1_unlisted_horizon_raises_KeyError
    ticker_symbol start_date end_date forecast_horizon button rng :
  forecast_horizon ∉ horizon_options →
  forecast_days forecast_horizon = Raise KeyError ∧
  run ticker_symbol start_date end_date forecast_horizon button rng
    = Raise KeyError.
Proof.
  intros Hout. unfold main. by rewrite (forecast_days_unlisted _ Hout).
Qed.


(** X7: what a successful run shows.  The horizon is one of the four
    listed ones; the forecast has one row per distinct downloaded date, in
    ascending order, followed by one row per day of the horizon; it has at
    least as many rows as the download; every downloaded price is finite;
    and the metrics shown are those of [evaluate] on the fetched frame and
    this forecast. *)
Theorem X7_what_a_successful_run_shows
    ticker_symbol start_date end_date forecast_horizon rng forecast m :
  run ticker_symbol start_date end_date forecast_horizon true rng
  = Ok (Some (forecast, m)) →
  ∃ days last_date,
    forecast_days forecast_horizon = Ok days ∧
    days ∈ listed_horizons ∧
    date_max (Date <$> yf_download ticker_symbol start_date end_date)
      = Some last_date ∧
    f_ds <$> forecast
      = sort_values
          (unique (Date <$> yf_download ticker_symbol start_date end_date))
        ++ horizon_dates last_date days ∧
    length (yf_download ticker_symbol start_date end_date) ≤ length forecast ∧
    Forall (λ q, isfinite (AdjClose q) = true)
           (yf_download ticker_symbol start_date end_date) ∧
    evaluate (fetch ticker_symbol start_date end_date) forecast = Ok m.
Proof.
  intros Hrun.
  assert (Hin : forecast_horizon ∈ horizon_options).
  { destruct (decide (forecast_horizon ∈ horizon_options)) as [|Hout]; [done|].
    unfold main in Hrun. by rewrite (forecast_days_unlisted _ Hout) in Hrun. }
  destruct (forecast_days_listed _ Hin) as (days & Hdays & Hlisted).
  unfold main in Hrun. rewrite Hdays, bind_Ok in Hrun.
  destruct (on_button ticker_symbol start_date end_date days rng)
    as [[forecast' m']|err] eqn:Hbutton; [|done].
  rewrite bind_Ok in Hrun. injection Hrun as -> ->.
  apply on_button_Ok_inv in Hbutton
    as (model & last_date & _ & Hlast & _ & Hdates & _ & Heval).
  exists days, last_date.
  rewrite <- (fetch_dates yf_download).
  pose proof (evaluate_Ok_inv _ _ _ Heval) as (_ & Hlen & Hfinite & _).
  rewrite fetch_length in Hlen.
  repeat split; try done.
  unfold fetch_stock_data in Hfinite. by rewrite Forall_fmap in Hfinite.
Qed.

Lemma unique_NoDup (l : list Z) : NoDup l → unique l = l.
Proof.
  induction 1 as [|x l Hx _ IH]; simpl; [done|].
  rewrite IH. f_equal. clear IH.
  induction l as [|a l IH]; [done|].
  apply not_elem_of_cons in Hx as [Hne Hx].
  rewrite filter_cons_True by done. by rewrite IH.
Qed.

Lemma filter_finite_rows (df : list (obs A)) :
  Forall (λ r, isfinite (y r) = true) df →
  filter (λ r, negb (isnan (y r))) df = df ∧
  existsb (λ r, isinf (y r)) df = false.
Proof.
  induction 1 as [|r df Hr _ [IHf IHe]]; [done|].
  apply isfinite_true in Hr as [Hnan Hinf]. split.
  - rewrite filter_cons_True by (by rewrite Hnan). by rewrite IHf.
  - simpl. by rewrite Hinf, IHe.
Qed.

(** X8: a pressed run succeeds whenever the horizon is an option, the
    download has at least two rows, all with a finite adjusted close and no
    two with the same date, and the fitted model's point estimates are
    finite.  The forecast then has as many rows as the download plus one
    per day of the horizon.  The downloaded dates need not be in order. *)
Theorem X8_clean_download_gives_a_result
    ticker_symbol start_date end_date forecast_horizon rng :
  forecast_horizon ∈ horizon_options →
  2 ≤ length (yf_download ticker_symbol start_date end_date) →
  Forall (λ q, isfinite (AdjClose q) = true)
         (yf_download ticker_symbol start_date end_date) →
  NoDup (Date <$> yf_download ticker_symbol start_date end_date) →
  (∀ d, isfinite (predict_yhat
                    (stan_fit (fetch ticker_symbol start_date end_date)) d)
        = true) →
  ∃ days forecast m,
    forecast_days forecast_horizon = Ok days ∧
    run ticker_symbol start_date end_date forecast_horizon true rng
      = Ok (Some (forecast, m)) ∧
    length forecast
      = length (yf_download ticker_symbol start_date end_date) + days.
Proof.
  intros Hin Hrows Hprices Hnodup Hyhat.
  destruct (forecast_days_listed _ Hin) as (days & Hdays & _).
  set (df := fetch ticker_symbol start_date end_date) in *.
  assert (Hfinite : Forall (λ r, isfinite (y r) = true) df).
  { unfold df, fetch_stock_data. by rewrite Forall_fmap. }
  destruct (filter_finite_rows df Hfinite) as [Hfilter Hnoinf].
  assert (Hlen : length df = length (yf_download ticker_symbol start_date end_date))
    by apply fetch_length.
  assert (Htrain : train df
                   = Ok {| history_dates := sort_values (unique (ds <$> df));
                           params := stan_fit df |}).
  { unfold train_prophet_model. rewrite Hfilter, Hnoinf.
    destruct (length df <? 2) eqn:Hlt; [apply Nat.ltb_lt in Hlt; lia|].
    destruct (t_scale (ds <$> df) =? 0)%Z eqn:Hspan; [|done].
    exfalso. apply Z.eqb_eq in Hspan.
    assert (Hdates : NoDup (ds <$> df)) by (unfold df; by rewrite fetch_dates).
    assert (2 ≤ length (ds <$> df)) as Hlen2 by (rewrite length_fmap; lia).
    destruct (ds <$> df) as [|d1 [|d2 dates]] eqn:Hds;
      [simpl in Hlen2; lia | simpl in Hlen2; lia |].
    apply NoDup_cons in Hdates as [Hnotin _]. apply Hnotin.
    rewrite (t_scale_zero _ d1 d2 Hspan); [by left | by left |].
    right. by left. }
  destruct (make_forecast_columns _ _ days rng Htrain)
    as (last_date & forecast & Hlast & Hrun & Hdates & Hcol).
  assert (Hcount : length forecast = length df + days).
  { rewrite <- (length_fmap f_ds), Hdates, length_app.
    rewrite length_sort_values, length_horizon_dates.
    unfold df at 1. rewrite fetch_dates, unique_NoDup by done.
    rewrite length_fmap. lia. }
  assert (Heval : ∃ m, evaluate df forecast = Ok m).
  { unfold evaluate. apply calculate_performance_metrics_Ok, check_reg_targets_Ok.
    rewrite length_fmap, length_take, length_fmap.
    split; [lia|]. split; [|split].
    - intros Hnil%fmap_nil_inv. rewrite Hnil in Hlen. simpl in Hlen. lia.
    - by rewrite Forall_fmap.
    - apply Forall_take. rewrite Hcol. simpl.
      apply Forall_fmap, Forall_forall. intros d _. apply Hyhat. }
  destruct Heval as [m Heval].
  exists days, forecast, m. split; [done|]. split; [|lia].
  unfold main, forecast_on_button. rewrite Hdays, bind_Ok.
  fold df. rewrite Htrain, bind_Ok, Hrun, bind_Ok, Heval, !bind_Ok. done.
Qed.

Lemma take_horizon_dates last_date k d :
  k ≤ d → take k (horizon_dates last_date d) = horizon_dates last_date k.
Proof.
  intros Hk. unfold horizon_dates.
  rewrite <- fmap_take, take_seq. by rewrite Nat.min_l.
Qed.

Lemma take_history_and_horizon (hist : list Z) last_date n d :
  n ≤ length hist + d →
  take n (hist ++ horizon_dates last_date d)
  = take n hist ++ horizon_dates last_date (n - length hist).
Proof.
  intros Hn. rewrite take_app. f_equal. apply take_horizon_dates. lia.
Qed.

(** X9: the metrics do not depend on the horizon or on the random state.
    Two successful runs on the same download, whatever their horizons and
    random states, show the same MAE, MSE and RMSE. *)
Theorem X9_metrics_independent_of_horizon
    ticker_symbol start_date end_date horizon1 horizon2 rng1 rng2
    forecast1 forecast2 m1 m2 :
  run ticker_symbol start_date end_date horizon1 true rng1
  = Ok (Some (forecast1, m1)) →
  run ticker_symbol start_date end_date horizon2 true rng2
  = Ok (Some (forecast2, m2)) →
  m1 = m2.
Proof.
  assert (Hinv : ∀ horizon rng forecast m,
    run ticker_symbol start_date end_date horizon true rng
    = Ok (Some (forecast, m)) →
    ∃ days, on_button ticker_symbol start_date end_date days rng
            = Ok (forecast, m)).
  { intros horizon rng forecast m Hrun. unfold main in Hrun.
    destruct (forecast_days horizon) as [days|]; [|done].
    exists days. rewrite bind_Ok in Hrun.
    destruct (on_button _ _ _ days rng) as [[? ?]|]; [|done].
    rewrite bind_Ok in Hrun. by injection Hrun as -> ->. }
  intros [days1 Hrun1]%Hinv [days2 Hrun2]%Hinv.
  apply on_button_Ok_inv in Hrun1
    as (model1 & last1 & Htrain1 & Hlast1 & _ & Hdates1 & Hcol1 & Heval1).
  apply on_button_Ok_inv in Hrun2
    as (model2 & last2 & Htrain2 & Hlast2 & _ & Hdates2 & Hcol2 & Heval2).
  rewrite Htrain1 in Htrain2. injection Htrain2 as <-.
  rewrite Hlast1 in Hlast2. injection Hlast2 as <-.
  pose proof (evaluate_Ok_inv _ _ _ Heval1) as (_ & Hlen1 & _).
  pose proof (evaluate_Ok_inv _ _ _ Heval2) as (_ & Hlen2 & _).
  assert (Hsame : take (length (fetch ticker_symbol start_date end_date))
                    (yhat <$> forecast1)
                  = take (length (fetch ticker_symbol start_date end_date))
                      (yhat <$> forecast2)).
  { rewrite Hcol1, Hcol2, <- !(fmap_take (predict_yhat (params model1))).
    rewrite Hdates1, Hdates2.
    rewrite <- (length_fmap f_ds forecast1), Hdates1, length_app,
      length_horizon_dates in Hlen1.
    rewrite <- (length_fmap f_ds forecast2), Hdates2, length_app,
      length_horizon_dates in Hlen2.
    by rewrite !take_history_and_horizon by lia. }
  unfold evaluate in Heval1, Heval2. rewrite Hsame in Heval1.
  rewrite Heval1 in Heval2. by injection Heval2.
Qed.
End Runs.

(** ** More on the metrics *)

Section MetricsOutcome.
Context {A : Type} `{Numeric A}.

Lemma forallb_false_Exists (f : A → bool) (l : list A) :
  forallb f l = false → Exists (λ x, f x = false) l.
Proof.
  induction l as [|x l IH]; simpl; [done|].
  destruct (f x) eqn:Hx; simpl.
  - intros Hl. right. by apply IH.
  - intros _. by left.
Qed.

(** X10: [calculate_performance_metrics] returns a report exactly when
    the two sequences have the same, non-zero length and hold only finite
    values; the report's RMSE is then the square root of its MSE, in the
    arithmetic at hand.  Otherwise, and for one of these reasons only, it
    raises [ValueError]. *)
Theorem X10_metrics_outcome (actual predicted : list A) :
  match calculate_performance_metrics actual predicted with
  | Ok m =>
      length actual = length predicted ∧ actual ≠ [] ∧
      Forall (λ x, isfinite x = true) actual ∧
      Forall (λ x, isfinite x = true) predicted ∧
      RMSE m = nsqrt (MSE m)
  | Raise e =>
      e = ValueError ∧
      (length actual ≠ length predicted ∨ actual = [] ∨
       Exists (λ x, isfinite x = false) actual ∨
       Exists (λ x, isfinite x = false) predicted)
  end.
Proof.
  destruct (calculate_performance_metrics actual predicted) as [m|e] eqn:Hm.
  - assert (Hok : ∃ m, calculate_performance_metrics actual predicted = Ok m)
      by eauto.
    apply calculate_performance_metrics_Ok, check_reg_targets_Ok in Hok
      as (? & ? & ? & ?).
    repeat split; try done. by apply (rmse_is_sqrt_of_mse actual predicted).
  - destruct (calculate_performance_metrics_cases actual predicted)
      as [[m Hm'] | Hm']; [congruence|].
    split; [congruence|].
    revert Hm.
    unfold calculate_performance_metrics, mean_absolute_error,
      mean_squared_error, check_reg_targets.
    destruct (length actual =? length predicted) eqn:Hlen; simpl.
    + destruct (forallb isfinite actual) eqn:Ha; simpl.
      * destruct (forallb isfinite predicted) eqn:Hp; simpl.
        -- destruct actual; simpl; [auto | done].
        -- intros _. do 3 right. by apply forallb_false_Exists.
      * intros _. right. right. left. by apply forallb_false_Exists.
    + intros _. left. by apply Nat.eqb_neq.
Qed.
End MetricsOutcome.

Section ExactMetricsMore.
Implicit Types l : list R.
Implicit Types pairs : list (R * R).

Lemma calculate_performance_metrics_Ok_exact (actual predicted : list R) m :
  calculate_performance_metrics actual predicted = Ok m →
  length actual = length predicted ∧ actual ≠ [] ∧
  m = {| MAE := mean_abs_diff (zip actual predicted);
         MSE := mean_sq_diff (zip actual predicted);
         RMSE := R_sqrt.sqrt (mean_sq_diff (zip actual predicted)) |}.
Proof.
  intros Hm.
  assert (Hok : ∃ m, calculate_performance_metrics actual predicted = Ok m)
    by eauto.
  apply calculate_performance_metrics_Ok, check_reg_targets_Ok in Hok
    as (Hlen & Hne & _ & _).
  split; [done|]. split; [done|].
  destruct (pairs_of_lists actual predicted Hlen) as [Hfst Hsnd].
  assert (Hpairs : zip actual predicted ≠ []).
  { intros Hnil. apply Hne. by rewrite <- Hfst, Hnil. }
  pose proof (calculate_performance_metrics_exact _ Hpairs) as Hexact.
  rewrite Hfst, Hsnd, Hm in Hexact. by injection Hexact.
Qed.

Lemma calculate_performance_metrics_lists (actual predicted : list R) :
  length actual = length predicted → actual ≠ [] →
  calculate_performance_metrics actual predicted
  = Ok {| MAE := mean_abs_diff (zip actual predicted);
          MSE := mean_sq_diff (zip actual predicted);
          RMSE := R_sqrt.sqrt (mean_sq_diff (zip actual predicted)) |}.
Proof.
  intros Hlen Hne.
  destruct (pairs_of_lists actual predicted Hlen) as [Hfst Hsnd].
  assert (Hpairs : zip actual predicted ≠ []).
  { intros Hnil. apply Hne. by rewrite <- Hfst, Hnil. }
  pose proof (calculate_performance_metrics_exact _ Hpairs) as Hexact.
  by rewrite Hfst, Hsnd in Hexact.
Qed.

Lemma abs_diffs_swap (actual predicted : list R) :
  (λ ap : R * R, Rabs (ap.1 - ap.2)) <$> zip actual predicted
  = (λ ap : R * R, Rabs (ap.1 - ap.2)) <$> zip predicted actual.
Proof.
  revert predicted. induction actual as [|a actual IH];
    intros [|p predicted]; try done.
  simpl zip. rewrite !fmap_cons. simpl fst. simpl snd.
  f_equal; [apply Rabs_minus_sym | apply IH].
Qed.

Lemma sq_diffs_swap (actual predicted : list R) :
  (λ ap : R * R, ((ap.1 - ap.2) * (ap.1 - ap.2))%R) <$> zip actual predicted
  = (λ ap : R * R, ((ap.1 - ap.2) * (ap.1 - ap.2))%R) <$> zip predicted actual.
Proof.
  revert predicted. induction actual as [|a actual IH];
    intros [|p predicted]; try done.
  simpl zip. rewrite !fmap_cons. simpl fst. simpl snd.
  f_equal; [ring | apply IH].
Qed.

(** X12: in exact real arithmetic the metrics are symmetric: exchanging
    the actual and the predicted sequence gives the same outcome, report or
    [ValueError]. *)
Theorem X12_metrics_symmetric (actual predicted : list R) :
  calculate_performance_metrics actual predicted
  = calculate_performance_metrics predicted actual.
Proof.
  assert (Hhalf : ∀ (a p : list R) (m : metrics R),
    calculate_performance_metrics a p = Ok m →
    calculate_performance_metrics p a = Ok m).
  { intros a p m (Hlen & Hne & ->)%calculate_performance_metrics_Ok_exact.
    rewrite calculate_performance_metrics_lists.
    - unfold mean_abs_diff, mean_sq_diff.
      by rewrite (abs_diffs_swap p a), (sq_diffs_swap p a).
    - done.
    - destruct a, p; simpl in *; done. }
  destruct (calculate_performance_metrics actual predicted) as [m|e] eqn:Hm.
  - symmetry. by apply Hhalf.
  - destruct (calculate_performance_metrics predicted actual) as [m'|e'] eqn:Hm'.
    + apply Hhalf in Hm'. congruence.
    + destruct (calculate_performance_metrics_cases actual predicted)
        as [[? ?] | ?]; [congruence|].
      destruct (calculate_performance_metrics_cases predicted actual)
        as [[? ?] | ?]; congruence.
Qed.

End ExactMetricsMore.

(** ** The further properties on explicit inputs *)

(** ** A perfect forecast, in binary64 *)

Section PerfectForecast.
Local Open Scope Z_scope.

Lemma plus_zero_eq x : plus_zero x → x = 0%float.
Proof. intros Hx. apply Prim2SF_inj. by rewrite Hx. Qed.

Lemma SFsub_same s : sf_finite s → SFsub prec emax s s = S754_zero false.
Proof.
  destruct s as [[]|?| |sx m e]; simpl; try done.
  intros _. by rewrite Z.sub_diag.
Qed.

Lemma sub_same x : isfinite x = true → plus_zero (PrimFloat.sub x x).
Proof.
  intros Hx%isfinite_sf_finite. unfold plus_zero.
  rewrite FloatAxioms.sub_spec. by apply SFsub_same.
Qed.

Lemma add_plus_zero x y : plus_zero x → plus_zero y → plus_zero (nadd x y).
Proof.
  unfold plus_zero. intros Hx Hy. change (nadd x y) with (PrimFloat.add x y).
  by rewrite FloatAxioms.add_spec, Hx, Hy.
Qed.

Lemma average_plus_zero (l : list float) :
  0 < Z.of_nat (length l) < 2 ^ 63 →
  Forall plus_zero l → plus_zero (average l).
Proof.
  intros Hn Hl. unfold average, plus_zero.
  change (ndiv ?a ?b) with (PrimFloat.div a b). rewrite FloatAxioms.div_spec.
  assert (Hs : plus_zero (np_sum l))
    by (by apply (np_sum_closed plus_zero); [|apply add_plus_zero|]).
  rewrite Hs. pose proof (of_count_positive (length l) Hn) as Hc.
  by destruct (Prim2SF (of_count (length l))) as [?|?| |[] ? ?].
Qed.

Lemma zip_with_same_plus_zero (f : float → float → float) (l : list float) :
  (∀ x, isfinite x = true → plus_zero (f x x)) →
  Forall (λ x, isfinite x = true) l → Forall plus_zero (zip_with f l l).
Proof.
  intros Hf Hl. induction Hl as [|x l Hx _ IH]; simpl; [done|].
  constructor; [by apply Hf | exact IH].
Qed.

(** X11: a perfect forecast scores zero, in binary64: when the
    predictions are the actual values themselves (finite, at least one,
    fewer than 2^63), MAE, MSE and RMSE are all +0. *)
Theorem X11_perfect_forecast_scores_zero (actual : list float) :
  actual ≠ [] → Z.of_nat (length actual) < 2 ^ 63 →
  Forall (λ x, isfinite x = true) actual →
  calculate_performance_metrics actual actual
    = Ok {| MAE := 0%float; MSE := 0%float; RMSE := 0%float |}.
Proof.
  intros Hne Hbound Hfin.
  unfold calculate_performance_metrics, mean_absolute_error, mean_squared_error.
  rewrite (proj2 (check_reg_targets_Ok actual actual)) by done.
  cbv [mbind result_bind]. cbv beta iota zeta.
  assert (Hcount : ∀ f : float → float → float,
    0 < Z.of_nat (length (zip_with f actual actual)) < 2 ^ 63).
  { intros f. rewrite length_zip_with, Nat.min_id.
    destruct actual; [done | simpl length in *; lia]. }
  assert (Hmae : average (zip_with (λ ti pi, nabs (nsub pi ti)) actual actual)
                 = 0%float).
  { apply plus_zero_eq, average_plus_zero; [apply Hcount|].
    apply zip_with_same_plus_zero; [|done].
    intros x Hx. unfold plus_zero.
    change (nabs (nsub x x)) with (PrimFloat.abs (PrimFloat.sub x x)).
    by rewrite FloatAxioms.abs_spec, (sub_same x Hx). }
  assert (Hmse : average (zip_with (λ ti pi, nmul (nsub ti pi) (nsub ti pi))
                            actual actual) = 0%float).
  { apply plus_zero_eq, average_plus_zero; [apply Hcount|].
    apply zip_with_same_plus_zero; [|done].
    intros x Hx. unfold plus_zero.
    change (nmul (nsub x x) (nsub x x))
      with (PrimFloat.mul (PrimFloat.sub x x) (PrimFloat.sub x x)).
    by rewrite FloatAxioms.mul_spec, (sub_same x Hx). }
  rewrite Hmae, Hmse. reflexivity.
Qed.
End PerfectForecast.

Section ExplicitRuns.
Import Sample.

Local Ltac by_decide := apply (bool_decide_unpack _); vm_compute; exact I.

Lemma X1_unlisted_horizon_witness :
  ("4 years" ∉ horizon_options) ∧
  forecast_days "4 years" = Raise KeyError ∧
  run ascending_rows "4 years" false 0 = Raise KeyError.
Proof.
  assert (Hout : "4 years" ∉ horizon_options) by by_decide.
  split; [exact Hout|].
  exact (X1_unlisted_horizon_raises_KeyError
           (download ascending_rows)
           naive_fit naive_yhat naive_uncertainty naive_advance
           "RACE" 0 10 "4 years" false 0 Hout).
Defined.



(** On this download the two rows with a price share day 2 and differ
    in price: the run ends in the fit, with [RuntimeError]. *)
Lemma messy_download_fails_in_the_fit :
  train (fetch messy_rows) = Raise RuntimeError ∧
  run messy_rows "1 year" true 0 = Raise RuntimeError.
Proof. split; vm_compute; reflexivity. Qed.

Lemma X7_successful_run_witness :
  ∃ forecast m days last_date,
    run ascending_rows "1 year" true 0 = Ok (Some (forecast, m)) ∧
    forecast_days "1 year" = Ok days ∧
    date_max (Date <$> download ascending_rows "RACE" 0 10) = Some last_date ∧
    length (download ascending_rows "RACE" 0 10) ≤ length forecast ∧
    evaluate (fetch ascending_rows) forecast = Ok m.
Proof.
  assert (Hrun : ∃ forecast m,
            run ascending_rows "1 year" true 0 = Ok (Some (forecast, m))).
  { eexists _, _. vm_compute. reflexivity. }
  destruct Hrun as (forecast & m & Hrun).
  destruct (X7_what_a_successful_run_shows
              (download ascending_rows)
              naive_fit naive_yhat naive_uncertainty naive_advance
              "RACE" 0 10 "1 year" 0 forecast m Hrun)
    as (days & last_date & Hdays & _ & Hlast & _ & Hlen & _ & Heval).
  exists forecast, m, days, last_date. repeat split; assumption.
Defined.

Lemma X8_clean_download_witness :
  ∃ days forecast m,
    forecast_days "1 year" = Ok days ∧
    run ascending_rows "1 year" true 0 = Ok (Some (forecast, m)) ∧
    length forecast = length (download ascending_rows "RACE" 0 10) + days.
Proof.
  apply (X8_clean_download_gives_a_result
           (download ascending_rows)
           naive_fit naive_yhat naive_uncertainty naive_advance
           "RACE" 0 10 "1 year" 0).
  - by_decide.
  - vm_compute. lia.
  - repeat constructor.
  - by_decide.
  - intros d. vm_compute. reflexivity.
Defined.

Lemma X9_metrics_independent_witness :
  ∃ forecast1 forecast2 m1 m2,
    run ascending_rows "1 year" true 0 = Ok (Some (forecast1, m1)) ∧
    run ascending_rows "2 years" true 7 = Ok (Some (forecast2, m2)) ∧
    m1 = m2.
Proof.
  assert (Hrun1 : ∃ forecast m,
            run ascending_rows "1 year" true 0 = Ok (Some (forecast, m))).
  { eexists _, _. vm_compute. reflexivity. }
  assert (Hrun2 : ∃ forecast m,
            run ascending_rows "2 years" true 7 = Ok (Some (forecast, m))).
  { eexists _, _. vm_compute. reflexivity. }
  destruct Hrun1 as (forecast1 & m1 & Hrun1).
  destruct Hrun2 as (forecast2 & m2 & Hrun2).
  exists forecast1, forecast2, m1, m2.
  split; [exact Hrun1|]. split; [exact Hrun2|].
  exact (X9_metrics_independent_of_horizon
           (download ascending_rows)
           naive_fit naive_yhat naive_uncertainty naive_advance
           "RACE" 0 10 "1 year" "2 years" 0 7 forecast1 forecast2 m1 m2
           Hrun1 Hrun2).
Defined.


Lemma X11_perfect_forecast_witness :
  calculate_performance_metrics [10; 11; 12]%float [10; 11; 12]%float
    = Ok {| MAE := 0%float; MSE := 0%float; RMSE := 0%float |}.
Proof.
  apply (X11_perfect_forecast_scores_zero [10; 11; 12]%float).
  - discriminate.
  - vm_compute. reflexivity.
  - repeat constructor.
Defined.
End ExplicitRuns.
